(** * VisualElement: value registry, frame scheduling and mount lifecycle

    A shallow embedding of [src/render/VisualElement.ts].  Objects live in
    a store indexed by references, closures are represented by the data
    they capture, and every method is a computation in a state-and-exception
    monad over that store. *)

From Stdlib Require Import ZArith List Lia Bool.
From stdpp Require Import base option list strings gmap functions.

(** ** References and plain data *)

Definition NodeId := nat.    (* a VisualElement object *)
Definition ValId := nat.     (* a MotionValue object *)
Definition SubId := nat.     (* one subscription held by a MotionValue *)
Definition Instance := nat.  (* the opaque host element, type parameter E *)
Definition UserFn := nat.    (* a function supplied by the caller *)

(** [string | number], together with [undefined], which is what an omitted
    optional argument reads as.  Numbers are only stored and compared. *)
Inductive Value :=
| VUndefined
| VStr (s : string)
| VNum (z : Z).

#[global] Instance Value_eq_dec : EqDecision Value.
Proof. solve_decision. Defined.

(** [ResolvedValues]: a plain object used as a dictionary. *)
Abbreviation ResolvedValues := (gmap string Value).

(** ** JavaScript [Map] with string keys

    Entries are kept in insertion order; [set] on a bound key keeps the
    entry's position. *)
Module JsMap.
Section Ops.
Context {V : Type}.

Fixpoint get (key : string) (m : list (string * V)) : option V :=
  match m with
  | [] => None
  | (k, v) :: m' => if String.eqb key k then Some v else get key m'
  end.

Definition has (key : string) (m : list (string * V)) : bool :=
  match get key m with Some _ => true | None => false end.

Fixpoint set (key : string) (v : V) (m : list (string * V)) : list (string * V) :=
  match m with
  | [] => [(key, v)]
  | (k, x) :: m' =>
      if String.eqb key k then (k, v) :: m' else (k, x) :: set key v m'
  end.

Fixpoint delete (key : string) (m : list (string * V)) : list (string * V) :=
  match m with
  | [] => []
  | (k, x) :: m' =>
      if String.eqb key k then delete key m' else (k, x) :: delete key m'
  end.

Definition keys (m : list (string * V)) : list string := map fst m.
End Ops.
End JsMap.

Abbreviation JsMap V := (list (string * V)).

(** ** Closures, by what they capture *)

(** The [onChange] arrow function built in [subscribeToValue]. *)
Inductive ChangeCallback := OnChange (this : NodeId) (key : string).

(** [this.scheduleRender], handed to [onRenderRequest]. *)
Inductive RenderRequestCallback := ScheduleRender (this : NodeId).

(** Functions handed to the frame clock.  [Update] and [TriggerRender] are
    the per-instance arrow functions [this.update] and [this.triggerRender];
    [RenderMethod] is what the expression [this.render] evaluates to: the
    backend's method itself, a different function object from both. *)
Inductive Process :=
| Update (this : NodeId)
| TriggerRender (this : NodeId)
| RenderMethod.

(** The function a MotionValue returns from [onChange] / [onRenderRequest]. *)
Inductive Unsubscribe :=
| UnsubscribeOnChange (value : ValId) (h : SubId)
| UnsubscribeOnRender (value : ValId) (h : SubId).

#[global] Instance ChangeCallback_eq_dec : EqDecision ChangeCallback.
Proof. solve_decision. Defined.
#[global] Instance RenderRequestCallback_eq_dec : EqDecision RenderRequestCallback.
Proof. solve_decision. Defined.
#[global] Instance Process_eq_dec : EqDecision Process.
Proof. solve_decision. Defined.
#[global] Instance Unsubscribe_eq_dec : EqDecision Unsubscribe.
Proof. solve_decision. Defined.

(** ** MotionValue *)

Module MotionValue.
(** Modelled from the spec: the class [MotionValue] of [../value] is not
    part of the sources at hand.  The spec gives the capability consumed:
    [get() -> value], [onChange(callback) -> unsubscribe] and
    [onRenderRequest(callback) -> unsubscribe].  A cell holds its current
    reading and its subscriptions, each under a handle of its own. *)
Record t := mk {
  current : Value;
  updateSubscribers : list (SubId * ChangeCallback);
  renderSubscribers : list (SubId * RenderRequestCallback);
  nextSubscription : SubId
}.

(** Modelled from the spec: [new MotionValue(init)], a cell whose reading
    is [init] and that nobody listens to yet. *)
Definition create (init : Value) : t := mk init [] [] 0.

(** Removing the subscription made under handle [h]. *)
Definition drop {A} (h : SubId) (l : list (SubId * A)) : list (SubId * A) :=
  List.filter (fun e => negb (Nat.eqb (fst e) h)) l.

(** [onChange(cb)] and [onRenderRequest(cb)]: the callback joins the
    subscribers under a fresh handle. *)
Definition addChange (cb : ChangeCallback) (c : t) : t :=
  mk (current c) (updateSubscribers c ++ [(nextSubscription c, cb)])
    (renderSubscribers c) (S (nextSubscription c)).

Definition addRender (cb : RenderRequestCallback) (c : t) : t :=
  mk (current c) (updateSubscribers c)
    (renderSubscribers c ++ [(nextSubscription c, cb)]) (S (nextSubscription c)).

(** What the returned unsubscribe functions do. *)
Definition dropChange (h : SubId) (c : t) : t :=
  mk (current c) (drop h (updateSubscribers c)) (renderSubscribers c)
    (nextSubscription c).

Definition dropRender (h : SubId) (c : t) : t :=
  mk (current c) (updateSubscribers c) (drop h (renderSubscribers c))
    (nextSubscription c).

(** A new reading. *)
Definition write (x : Value) (c : t) : t :=
  mk x (updateSubscribers c) (renderSubscribers c) (nextSubscription c).
End MotionValue.

(** ** Frame clock *)

Module FrameClock.
Inductive Phase := UpdatePhase | RenderPhase.

(** Modelled from the spec: the clock is the external [framesync]
    package.  The spec gives its contract: [schedule(phase, callback)]
    and [cancel(phase, callback)] work by the callback's identity,
    scheduling twice before the tick leaves one entry, and a tick runs
    the Update phase and then the Render phase. *)
Record t := mk {
  updateQueue : list Process;
  renderQueue : list Process
}.

Definition empty : t := mk [] [].

Definition enqueue (p : Process) (q : list Process) : list Process :=
  if bool_decide (p ∈ q) then q else q ++ [p].

Definition dequeue (p : Process) (q : list Process) : list Process :=
  List.filter (fun p' => negb (bool_decide (p' = p))) q.

Definition schedule (ph : Phase) (p : Process) (c : t) : t :=
  match ph with
  | UpdatePhase => mk (enqueue p (updateQueue c)) (renderQueue c)
  | RenderPhase => mk (updateQueue c) (enqueue p (renderQueue c))
  end.

Definition cancel (ph : Phase) (p : Process) (c : t) : t :=
  match ph with
  | UpdatePhase => mk (dequeue p (updateQueue c)) (renderQueue c)
  | RenderPhase => mk (updateQueue c) (dequeue p (renderQueue c))
  end.
End FrameClock.

(** ** The VisualElement object *)

(** [VisualElementConfig], of which the class reads [onUpdate] only. *)
Record VisualElementConfig := { onUpdate : option UserFn }.

(** React's [Ref<E>]: a callback or an object with a [current] field. *)
Inductive Ref :=
| RefCallback (f : UserFn)
| RefObject (r : nat).

Record VisualElement := mkVisualElement {
  parent : option NodeId;
  element : option Instance;
  latest : ResolvedValues;
  values : JsMap ValId;
  valueSubscriptions : JsMap (Unsubscribe * Unsubscribe);
  externalRef : option Ref;
  config : VisualElementConfig;
  current : option Instance;
  depth : nat
}.

Definition set_element (e : option Instance) (nd : VisualElement) : VisualElement :=
  mkVisualElement (parent nd) e (latest nd) (values nd) (valueSubscriptions nd)
    (externalRef nd) (config nd) e (depth nd).

Definition set_latest (f : ResolvedValues -> ResolvedValues) (nd : VisualElement) : VisualElement :=
  mkVisualElement (parent nd) (element nd) (f (latest nd)) (values nd)
    (valueSubscriptions nd) (externalRef nd) (config nd) (current nd) (depth nd).

Definition set_values (f : JsMap ValId -> JsMap ValId) (nd : VisualElement) : VisualElement :=
  mkVisualElement (parent nd) (element nd) (latest nd) (f (values nd))
    (valueSubscriptions nd) (externalRef nd) (config nd) (current nd) (depth nd).

Definition set_valueSubscriptions
    (f : JsMap (Unsubscribe * Unsubscribe) -> JsMap (Unsubscribe * Unsubscribe))
    (nd : VisualElement) : VisualElement :=
  mkVisualElement (parent nd) (element nd) (latest nd) (values nd)
    (f (valueSubscriptions nd)) (externalRef nd) (config nd) (current nd) (depth nd).

Definition set_config (c : VisualElementConfig) (nd : VisualElement) : VisualElement :=
  mkVisualElement (parent nd) (element nd) (latest nd) (values nd)
    (valueSubscriptions nd) (externalRef nd) c (current nd) (depth nd).

(** ** The world: object store, clock and what the outside observes *)

Inductive Event :=
| Rendered (this : NodeId) (snapshot : ResolvedValues)      (* backend [render()] ran *)
| Updated (this : NodeId) (f : UserFn) (snapshot : ResolvedValues) (* [onUpdate(latest)] ran *)
| RefCalled (f : UserFn) (e : option Instance)               (* callback ref ran *)
| RenderedUnbound.                                           (* [render] ran without receiver *)

Record World := mkWorld {
  nodes : NodeId -> VisualElement;
  nextNode : NodeId;
  cells : ValId -> MotionValue.t;
  nextVal : ValId;
  clock : FrameClock.t;
  refObjects : nat -> option Instance;
  log : list Event
}.

Definition emptyNode : VisualElement :=
  mkVisualElement None None ∅ [] [] None {| onUpdate := None |} None 0.

Definition initial : World :=
  mkWorld (fun _ => emptyNode) 0 (fun _ => MotionValue.create VUndefined) 0
    FrameClock.empty (fun _ => None) [].

Definition with_node (n : NodeId) (f : VisualElement -> VisualElement) (w : World) : World :=
  mkWorld (<[n := f (nodes w n)]> (nodes w)) (nextNode w) (cells w) (nextVal w)
    (clock w) (refObjects w) (log w).

Definition with_cell (v : ValId) (f : MotionValue.t -> MotionValue.t) (w : World) : World :=
  mkWorld (nodes w) (nextNode w) (<[v := f (cells w v)]> (cells w)) (nextVal w)
    (clock w) (refObjects w) (log w).

Definition with_clock (f : FrameClock.t -> FrameClock.t) (w : World) : World :=
  mkWorld (nodes w) (nextNode w) (cells w) (nextVal w) (f (clock w))
    (refObjects w) (log w).

Definition with_log (ev : Event) (w : World) : World :=
  mkWorld (nodes w) (nextNode w) (cells w) (nextVal w) (clock w)
    (refObjects w) (log w ++ [ev]).

Definition with_refObject (r : nat) (e : option Instance) (w : World) : World :=
  mkWorld (nodes w) (nextNode w) (cells w) (nextVal w) (clock w)
    (<[r := e]> (refObjects w)) (log w).

(** ** Computations *)

Inductive Error :=
| ConfigurationError (message : string)   (* thrown by [invariant] *)
| TypeError.                              (* calling something that is not a function *)

Inductive result (A : Type) :=
| Ok (a : A)
| Throw (e : Error).
Arguments Ok {A} a.
Arguments Throw {A} e.

Definition M (A : Type) : Type := World -> result (A * World).

Definition ret {A} (a : A) : M A := fun w => Ok (a, w).

Definition bind {A B} (m : M A) (k : A -> M B) : M B :=
  fun w => match m w with
           | Ok (a, w') => k a w'
           | Throw e => Throw e
           end.

Definition throw {A} (e : Error) : M A := fun _ => Throw e.
Definition gets {A} (f : World -> A) : M A := fun w => Ok (f w, w).
Definition modify (f : World -> World) : M unit := fun w => Ok (tt, f w).

Notation "'do' X <- A ; B" := (bind A (fun X => B))
  (at level 10, X name, A at level 100, B at level 200).
Notation "A ;; B" := (bind A (fun _ => B))
  (at level 100, B at level 200, right associativity, only parsing).

Definition when (b : bool) (m : M unit) : M unit := if b then m else ret tt.

Fixpoint forM {A} (l : list A) (f : A -> M unit) : M unit :=
  match l with
  | [] => ret tt
  | a :: l' => f a ;; forM l' f
  end.

(** ** What the class consumes from a MotionValue and from the clock *)

Module MotionValueOps.
Import MotionValue.

(** [new MotionValue(init)] *)
Definition new (init : Value) : M ValId :=
  fun w =>
    Ok (nextVal w,
        mkWorld (nodes w) (nextNode w) (<[nextVal w := create init]> (cells w))
          (S (nextVal w)) (clock w) (refObjects w) (log w)).

(** [value.get()] *)
Definition get (value : ValId) : M Value :=
  gets (fun w => current (cells w value)).

(** [value.onChange(callback)] *)
Definition onChange (value : ValId) (callback : ChangeCallback) : M Unsubscribe :=
  do h <- gets (fun w => nextSubscription (cells w value));
  modify (with_cell value (addChange callback)) ;;
  ret (UnsubscribeOnChange value h).

(** [value.onRenderRequest(callback)] *)
Definition onRenderRequest (value : ValId) (callback : RenderRequestCallback)
    : M Unsubscribe :=
  do h <- gets (fun w => nextSubscription (cells w value));
  modify (with_cell value (addRender callback)) ;;
  ret (UnsubscribeOnRender value h).

(** Calling a function obtained from [onChange] or [onRenderRequest]. *)
Definition call (u : Unsubscribe) : M unit :=
  match u with
  | UnsubscribeOnChange value h => modify (with_cell value (dropChange h))
  | UnsubscribeOnRender value h => modify (with_cell value (dropRender h))
  end.
End MotionValueOps.

(** [sync.update(process, false, true)], [sync.render(process, false, true)] and
    the two [cancelSync] entry points. *)
Definition sync_update (process : Process) : M unit :=
  modify (with_clock (FrameClock.schedule FrameClock.UpdatePhase process)).
Definition sync_render (process : Process) : M unit :=
  modify (with_clock (FrameClock.schedule FrameClock.RenderPhase process)).
Definition cancelSync_update (process : Process) : M unit :=
  modify (with_clock (FrameClock.cancel FrameClock.UpdatePhase process)).
Definition cancelSync_render (process : Process) : M unit :=
  modify (with_clock (FrameClock.cancel FrameClock.RenderPhase process)).

(** Modelled from the spec: [invariant] comes from the external package
    [hey-listen]; the spec has a failed check raise a ConfigurationError
    at once. *)
Definition invariant (check : bool) (message : string) : M unit :=
  if check then ret tt else throw (ConfigurationError message).

(** ** The methods of [VisualElement] *)

(** [new VisualElement(parent, ref)] *)
Definition construct (parent : option NodeId) (ref : option Ref) : M NodeId :=
  fun w =>
    let this := nextNode w in
    let d := match parent with
             | Some p => depth (nodes w p) + 1
             | None => 0
             end in
    Ok (this,
        mkWorld
          (<[this := mkVisualElement parent None ∅ [] [] ref {| onUpdate := None |} None d]>
             (nodes w))
          (S this) (cells w) (nextVal w) (clock w) (refObjects w) (log w)).

Definition hasValue (this : NodeId) (key : string) : M bool :=
  gets (fun w => JsMap.has key (values (nodes w this))).

Definition removeValue (this : NodeId) (key : string) : M unit :=
  do unsubscribe <- gets (fun w => JsMap.get key (valueSubscriptions (nodes w this)));
  match unsubscribe with
  | Some (unsubscribeOnChange, unsubscribeOnRender) =>
      MotionValueOps.call unsubscribeOnChange ;;
      MotionValueOps.call unsubscribeOnRender
  | None => ret tt
  end ;;
  modify (with_node this (set_values (JsMap.delete key))) ;;
  modify (with_node this (set_latest (delete key))) ;;
  modify (with_node this (set_valueSubscriptions (JsMap.delete key))).

Definition subscribeToValue (this : NodeId) (key : string) (value : ValId) : M unit :=
  do unsubscribeOnChange <- MotionValueOps.onChange value (OnChange this key);
  do unsubscribeOnRender <- MotionValueOps.onRenderRequest value (ScheduleRender this);
  modify (with_node this
            (set_valueSubscriptions
               (JsMap.set key (unsubscribeOnChange, unsubscribeOnRender)))).

Definition addValue (this : NodeId) (key : string) (value : ValId) : M unit :=
  do bound <- hasValue this key;
  when bound (removeValue this key) ;;
  modify (with_node this (set_values (JsMap.set key value))) ;;
  do x <- MotionValueOps.get value;
  modify (with_node this (set_latest <[key := x]>)) ;;
  do el <- gets (fun w => element (nodes w this));
  when (bool_decide (is_Some el)) (subscribeToValue this key value).

(** [defaultValue] reads [VUndefined] when the caller leaves it out. *)
Definition getValue (this : NodeId) (key : string) (defaultValue : Value)
    : M (option ValId) :=
  do value <- gets (fun w => JsMap.get key (values (nodes w this)));
  match value with
  | None =>
      if bool_decide (defaultValue ≠ VUndefined) then
        do fresh <- MotionValueOps.new defaultValue;
        addValue this key fresh ;;
        ret (Some fresh)
      else ret None
  | Some _ => ret value
  end.

(** [Map.prototype.forEach] walks the entries in insertion order and passes
    over an entry deleted before its turn.  The callbacks used by this
    class add no entries, so walking the keys present at the start and
    looking each one up again when its turn comes is the same walk. *)
Definition forEachValue (this : NodeId) (callback : ValId -> string -> M unit) : M unit :=
  do entries <- gets (fun w => values (nodes w this));
  forM (JsMap.keys entries) (fun key =>
    do live <- gets (fun w => JsMap.get key (values (nodes w this)));
    match live with
    | Some value => callback value key
    | None => ret tt
    end).

Definition getInstance (this : NodeId) : M (option Instance) :=
  gets (fun w => element (nodes w this)).

(** [updateConfig(config = {})]: [None] is the omitted argument. *)
Definition updateConfig (this : NodeId) (c : option VisualElementConfig) : M unit :=
  modify (with_node this
            (set_config {| onUpdate := onUpdate (default {| onUpdate := None |} c) |})).

(** [update = () => this.config.onUpdate!(this.latest)] *)
Definition update (this : NodeId) : M unit :=
  do nd <- gets (fun w => nodes w this);
  match onUpdate (config nd) with
  | Some f => modify (with_log (Updated this f (latest nd)))
  | None => throw TypeError
  end.

(** The backend's [render()], abstract here: it is observed, with the
    snapshot it would paint. *)
Definition render (this : NodeId) : M unit :=
  do nd <- gets (fun w => nodes w this);
  modify (with_log (Rendered this (latest nd))).

Definition setSingleStaticValue (this : NodeId) (key : string) (value : Value) : M unit :=
  modify (with_node this (set_latest <[key := value]>)).

(** The first argument of [setStaticValues]: a key or a mapping. *)
Inductive StaticValues :=
| OneKey (key : string)
| Mapping (entries : ResolvedValues).

Definition setStaticValues (this : NodeId) (vals : StaticValues) (value : Value) : M unit :=
  match vals with
  | OneKey key => setSingleStaticValue this key value
  | Mapping entries =>
      (* [for (const key in values)]: one write per key; the keys differ, so
         the order of the walk does not show in the result *)
      forM (map_to_list entries) (fun e => setSingleStaticValue this (fst e) (snd e))
  end.

Definition triggerRender (this : NodeId) : M unit := render this.

Definition scheduleRender (this : NodeId) : M unit :=
  sync_render (TriggerRender this).

Definition mount (this : NodeId) (el : option Instance) : M unit :=
  invariant (bool_decide (is_Some el))
    "No ref found. Ensure components created with motion.custom forward refs using React.forwardRef" ;;
  modify (with_node this (set_element el)) ;;
  forEachValue this (fun value key => subscribeToValue this key value).

Definition unmount (this : NodeId) : M unit :=
  forEachValue this (fun _ key => removeValue this key) ;;
  cancelSync_update (Update this) ;;
  cancelSync_render RenderMethod.

Definition ref (this : NodeId) (el : option Instance) : M unit :=
  (if bool_decide (is_Some el) then mount this el else unmount this) ;;
  do r <- gets (fun w => externalRef (nodes w this));
  match r with
  | None => ret tt
  | Some (RefCallback f) => modify (with_log (RefCalled f el))
  | Some (RefObject o) => modify (with_refObject o el)
  end.

(** ** What runs later: subscriptions firing and the clock ticking *)

(** The body of the [onChange] closure of [subscribeToValue]. *)
Definition call_onChange (cb : ChangeCallback) (x : Value) : M unit :=
  match cb with
  | OnChange this key =>
      setSingleStaticValue this key x ;;
      modify (with_node this (set_latest <[key := x]>)) ;;
      do c <- gets (fun w => config (nodes w this));
      match onUpdate c with
      | Some _ => sync_update (Update this)
      | None => ret tt
      end
  end.

Definition call_onRenderRequest (cb : RenderRequestCallback) : M unit :=
  match cb with
  | ScheduleRender this => scheduleRender this
  end.

Definition call_process (p : Process) : M unit :=
  match p with
  | Update this => update this
  | TriggerRender this => triggerRender this
  | RenderMethod => modify (with_log RenderedUnbound)
  end.

(** Modelled from the spec: a write to a MotionValue ([../value] is not at
    hand) stores the new reading, notifies every [onChange] subscriber with
    it and then every [onRenderRequest] subscriber.  The spec's control
    flow has a value write reach the subscription callback, which updates
    the snapshot, and end in the scheduler enqueuing the update and the
    render. *)
Definition value_set (value : ValId) (x : Value) : M unit :=
  modify (with_cell value (MotionValue.write x)) ;;
  do subs <- gets (fun w => MotionValue.updateSubscribers (cells w value));
  forM subs (fun e => call_onChange (snd e) x) ;;
  do requests <- gets (fun w => MotionValue.renderSubscribers (cells w value));
  forM requests (fun e => call_onRenderRequest (snd e)).

(** Modelled from the spec: a MotionValue asking for a render notifies
    every [onRenderRequest] subscriber. *)
Definition value_requestRender (value : ValId) : M unit :=
  do subs <- gets (fun w => MotionValue.renderSubscribers (cells w value));
  forM subs (fun e => call_onRenderRequest (snd e)).

(** Modelled from the spec: one tick of the frame clock runs what the
    Update phase holds, then what the Render phase holds, each entry once. *)
Definition tick : M unit :=
  do us <- gets (fun w => FrameClock.updateQueue (clock w));
  modify (with_clock (fun c => FrameClock.mk [] (FrameClock.renderQueue c))) ;;
  forM us call_process ;;
  do rs <- gets (fun w => FrameClock.renderQueue (clock w));
  modify (with_clock (fun c => FrameClock.mk (FrameClock.updateQueue c) [])) ;;
  forM rs call_process.

(** ** Everything that can happen, as one step function *)

Inductive Op :=
| New (parent : option NodeId) (r : option Ref)
| AddValue (this : NodeId) (key : string) (value : ValId)
| RemoveValue (this : NodeId) (key : string)
| GetValue (this : NodeId) (key : string) (defaultValue : Value)
| UpdateConfig (this : NodeId) (c : option VisualElementConfig)
| SetStaticValues (this : NodeId) (vals : StaticValues) (value : Value)
| ScheduleRenderOp (this : NodeId)
| Mount (this : NodeId) (el : option Instance)
| Unmount (this : NodeId)
| RefOp (this : NodeId) (el : option Instance)
| NewValue (init : Value)
| SetValue (value : ValId) (x : Value)
| RequestRender (value : ValId)
| Tick.

Definition step (op : Op) : M unit :=
  match op with
  | New p r => construct p r ;; ret tt
  | AddValue this key value => addValue this key value
  | RemoveValue this key => removeValue this key
  | GetValue this key d => getValue this key d ;; ret tt
  | UpdateConfig this c => updateConfig this c
  | SetStaticValues this vals value => setStaticValues this vals value
  | ScheduleRenderOp this => scheduleRender this
  | Mount this el => mount this el
  | Unmount this => unmount this
  | RefOp this el => ref this el
  | NewValue init => MotionValueOps.new init ;; ret tt
  | SetValue value x => value_set value x
  | RequestRender value => value_requestRender value
  | Tick => tick
  end.

Definition run (ops : list Op) : M unit := forM ops step.

(** The world reached from the initial one by a sequence of steps; the
    initial world again if a step throws. *)
Definition world_after (ops : list Op) : World :=
  match run ops initial with
  | Ok (_, w) => w
  | Throw _ => initial
  end.

(** ** The lifecycle as the spec words it *)

Module Spec.
Inductive Lifecycle := Unmounted | Mounted.

(** Follows the spec's words (section 4.3), not the source: a node starts
    [Unmounted], a successful mount makes it [Mounted] and an unmount
    makes it [Unmounted] again.  The source keeps no such state. *)
Definition transition (this : NodeId) (s : Lifecycle) (op : Op) : Lifecycle :=
  match op with
  | Mount n (Some _) | RefOp n (Some _) => if Nat.eqb n this then Mounted else s
  | Unmount n | RefOp n None => if Nat.eqb n this then Unmounted else s
  | _ => s
  end.

Definition lifecycle (this : NodeId) (ops : list Op) : Lifecycle :=
  fold_left (transition this) ops Unmounted.
End Spec.

(** ** Observations used in the statements *)

(** Does [value] hold an [onChange] subscription made by [this] for [key]? *)
Definition listens (w : World) (this : NodeId) (key : string) (value : ValId) : bool :=
  existsb (fun e => bool_decide (snd e = OnChange this key))
    (MotionValue.updateSubscribers (cells w value)).

(** The binding of [key] to [value] is live: the node holds the two
    unsubscribe functions and [value] holds the two subscriptions. *)
Definition subscribed (w : World) (this : NodeId) (key : string) (value : ValId) : bool :=
  match JsMap.get key (valueSubscriptions (nodes w this)) with
  | Some (UnsubscribeOnChange v h, UnsubscribeOnRender v' h') =>
      bool_decide (v = value) && bool_decide (v' = value)
      && bool_decide ((h, OnChange this key) ∈ MotionValue.updateSubscribers (cells w value))
      && bool_decide ((h', ScheduleRender this) ∈ MotionValue.renderSubscribers (cells w value))
  | _ => false
  end.

(** Every [onChange] subscription that [value] holds for ([this], [key]) is
    the one the node can still cancel: [key] is bound and the recorded
    unsubscribe function is that subscription's. *)
Definition accounted (w : World) (this : NodeId) (key : string) (value : ValId) : bool :=
  forallb
    (fun e =>
       if bool_decide (snd e = OnChange this key) then
         JsMap.has key (values (nodes w this))
         && match JsMap.get key (valueSubscriptions (nodes w this)) with
            | Some (u, _) => bool_decide (u = UnsubscribeOnChange value (fst e))
            | None => false
            end
       else true)
    (MotionValue.updateSubscribers (cells w value)).

(** ** The program logic: what to say about a computation *)

(** [total m]: [m] never throws. *)
Definition total {A} (m : M A) : Prop := forall w, exists a w', m w = Ok (a, w').

(** [triple P m Q]: from a world in [P], if [m] completes, [Q] holds of its
    result and final world. *)
Definition triple {A} (P : World -> Prop) (m : M A) (Q : A -> World -> Prop) : Prop :=
  forall w a w', P w -> m w = Ok (a, w') -> Q a w'.

Definition keeps {A} (P : World -> Prop) (m : M A) : Prop := triple P m (fun _ => P).

(** A property of the world that survives every update made outside the
    registries: of a snapshot, of a configuration, of a MotionValue, of the
    clock, of the log, of a ref object, and the creation of a MotionValue. *)
Class Quiet (P : World -> Prop) : Prop := {
  quiet_latest : forall n f w, P w -> P (with_node n (set_latest f) w);
  quiet_config : forall n c w, P w -> P (with_node n (set_config c) w);
  quiet_cell : forall v f w, P w -> P (with_cell v f w);
  quiet_clock : forall f w, P w -> P (with_clock f w);
  quiet_log : forall ev w, P w -> P (with_log ev w);
  quiet_refObject : forall r e w, P w -> P (with_refObject r e w);
  quiet_new : forall init w, P w ->
    P (mkWorld (nodes w) (nextNode w) (<[nextVal w := MotionValue.create init]> (cells w))
         (S (nextVal w)) (clock w) (refObjects w) (log w))
}.

(** A property that survives the updates of the registries as well. *)
Class Stable (P : World -> Prop) : Prop := {
  stable_quiet :: Quiet P;
  stable_values : forall n f w, P w -> P (with_node n (set_values f) w);
  stable_subscriptions :
    forall n f w, P w -> P (with_node n (set_valueSubscriptions f) w)
}.

(** ** The methods as functions on the node and on the world

    The registry methods never throw, so each of them has a final world.
    The functions below name those worlds; the proofs first show that the
    method computes exactly that world and then reason about the function. *)

(** Nested constructions: the first node gets [parent], every later node
    gets the node constructed just before it.  One node per ref given. *)
Fixpoint nest (refs : list (option Ref)) (parent : option NodeId) : M (list NodeId) :=
  match refs with
  | [] => ret []
  | r :: refs' =>
      do this <- construct parent r;
      do rest <- nest refs' (Some this);
      ret (this :: rest)
  end.

(** The depth the constructor gives to a node with this parent. *)
Definition depth_of_child (w : World) (parent : option NodeId) : nat :=
  match parent with
  | Some p => depth (nodes w p) + 1
  | None => 0
  end.

(** What [removeValue] does to the node itself. *)
Definition remove_entry (key : string) (nd : VisualElement) : VisualElement :=
  set_valueSubscriptions (JsMap.delete key)
    (set_latest (delete key) (set_values (JsMap.delete key) nd)).

(** What the loop of [unmount] does to the node, key after key. *)
Fixpoint strip (ks : list string) (nd : VisualElement) : VisualElement :=
  match ks with
  | [] => nd
  | k :: ks' => strip ks' (if JsMap.has k (values nd) then remove_entry k nd else nd)
  end.

(** [key] has left the node: no binding, no snapshot entry, no subscription. *)
Definition gone (key : string) (nd : VisualElement) : Prop :=
  JsMap.get key (values nd) = None
  /\ latest nd !! key = None
  /\ JsMap.get key (valueSubscriptions nd) = None.

(** One round of the loop of [setStaticValues]. *)
Definition write_entry (acc : ResolvedValues) (e : string * Value) : ResolvedValues :=
  <[e.1 := e.2]> acc.

(** Calling an unsubscribe function. *)
Definition call_world (u : Unsubscribe) (w : World) : World :=
  match u with
  | UnsubscribeOnChange value h => with_cell value (MotionValue.dropChange h) w
  | UnsubscribeOnRender value h => with_cell value (MotionValue.dropRender h) w
  end.

(** [unsubscribe && unsubscribe()] in [removeValue]. *)
Definition unsubscribe_world (this : NodeId) (key : string) (w : World) : World :=
  match JsMap.get key (valueSubscriptions (nodes w this)) with
  | Some (u1, u2) => call_world u2 (call_world u1 w)
  | None => w
  end.

(** The world after [removeValue]. *)
Definition removeValue_world (this : NodeId) (key : string) (w : World) : World :=
  with_node this (set_valueSubscriptions (JsMap.delete key))
    (with_node this (set_latest (delete key))
       (with_node this (set_values (JsMap.delete key)) (unsubscribe_world this key w))).

(** The world after [subscribeToValue]. *)
Definition subscribe_world (this : NodeId) (key : string) (value : ValId) (w : World)
    : World :=
  let w1 := with_cell value (MotionValue.addChange (OnChange this key)) w in
  let w2 := with_cell value (MotionValue.addRender (ScheduleRender this)) w1 in
  with_node this
    (set_valueSubscriptions
       (JsMap.set key
          (UnsubscribeOnChange value (MotionValue.nextSubscription (cells w value)),
           UnsubscribeOnRender value (MotionValue.nextSubscription (cells w1 value)))))
    w2.

(** [this.values.set(key, value); this.latest[key] = value.get()] *)
Definition bind_world (this : NodeId) (key : string) (value : ValId) (w : World) : World :=
  with_node this (set_latest <[key := MotionValue.current (cells w value)]>)
    (with_node this (set_values (JsMap.set key value)) w).

(** The world after the optional [removeValue] at the start of [addValue]. *)
Definition cleared_world (this : NodeId) (key : string) (w : World) : World :=
  if JsMap.has key (values (nodes w this)) then removeValue_world this key w else w.

(** The world after [addValue]. *)
Definition addValue_world (this : NodeId) (key : string) (value : ValId) (w : World)
    : World :=
  let w1 := if JsMap.has key (values (nodes w this))
            then removeValue_world this key w else w in
  let w2 := bind_world this key value w1 in
  if bool_decide (is_Some (element (nodes w2 this)))
  then subscribe_world this key value w2 else w2.

(** The world after a call of the [onChange] closure. *)
Definition call_onChange_world (cb : ChangeCallback) (x : Value) (w : World) : World :=
  match cb with
  | OnChange this key =>
      let w1 := with_node this (set_latest <[key := x]>)
                  (with_node this (set_latest <[key := x]>) w) in
      match onUpdate (config (nodes w1 this)) with
      | Some _ => with_clock (FrameClock.schedule FrameClock.UpdatePhase (Update this)) w1
      | None => w1
      end
  end.

(** The [onChange] subscriptions a MotionValue holds. *)
Definition listeners (w : World) (v : ValId) : list (SubId * ChangeCallback) :=
  MotionValue.updateSubscribers (cells w v).

(** Is [cb] the subscription of ([this], [key])? *)
Definition targets (this : NodeId) (key : string) (cb : ChangeCallback) : bool :=
  bool_decide (cb = OnChange this key).

(** The node records an unsubscribe function for bound keys only. *)
Definition records_within_node (nd : VisualElement) : Prop :=
  forall k, JsMap.has k (values nd) = false ->
            JsMap.get k (valueSubscriptions nd) = None.

(** ... and so does every node. *)
Definition records_within (w : World) : Prop :=
  forall n, records_within_node (nodes w n).

(** ** Scenarios

    Sequences of calls, run from the initial world.  Node 0 is the first
    node constructed and value 0 the first MotionValue. *)

(** A value is bound on a node that was never mounted. *)
Definition bound_before_mount : list Op :=
  [New None None; NewValue (VNum 1); AddValue 0 "x" 0].

(** A node is mounted and unmounted again. *)
Definition mounted_then_unmounted : list Op :=
  [New None None; NewValue (VNum 1); Mount 0 (Some 7); Unmount 0].

(** ... and a value is bound after the unmount. *)
Definition bound_after_unmount : list Op :=
  mounted_then_unmounted ++ [AddValue 0 "x" 0].

(** A fresh node and a fresh value. *)
Definition bound_before_first_mount : list Op :=
  [New None None; NewValue (VNum 1)].

(** A mounted node and two values, none bound yet. *)
Definition mounted_with_two_values : list Op :=
  [New None None; NewValue (VNum 1); NewValue (VNum 2); Mount 0 (Some 7)].

(** A value bound between an unmount and the next mount, then replaced. *)
Definition remounted_then_replaced : list Op :=
  [New None None; NewValue (VNum 1); NewValue (VNum 2);
   Mount 0 (Some 7); Unmount 0; AddValue 0 "x" 0; Mount 0 (Some 7);
   AddValue 0 "x" 0; AddValue 0 "x" 1].

(** A mounted node with [onUpdate] set and one subscribed value. *)
Definition subscribed_with_onUpdate : list Op :=
  [New None None; NewValue (VNum 1); Mount 0 (Some 7);
   UpdateConfig 0 (Some {| onUpdate := Some 5 |}); AddValue 0 "x" 0].

(** Two nodes schedule a render; the first is unmounted before the tick. *)
Definition render_scheduled_then_unmounted : list Op :=
  [New None None; New None None; Mount 0 (Some 7); Mount 1 (Some 8);
   ScheduleRenderOp 0; ScheduleRenderOp 1; Unmount 0; Tick].

(** A change schedules the update of two nodes; the first is unmounted
    before the tick. *)
Definition update_scheduled_then_unmounted : list Op :=
  [New None None; New None None; NewValue (VNum 1);
   Mount 0 (Some 7); Mount 1 (Some 8);
   UpdateConfig 0 (Some {| onUpdate := Some 5 |});
   UpdateConfig 1 (Some {| onUpdate := Some 6 |});
   AddValue 0 "x" 0; AddValue 1 "y" 0; SetValue 0 (VNum 2); Unmount 0; Tick].

(** ** What the tick shows to the outside *)

(** What running one process adds to the log, in a world where it does not
    throw: the update callback shows [onUpdate(latest)], the render callback
    shows the backend's render. *)
Definition observed (w : World) (p : Process) : list Event :=
  match p with
  | Update this =>
      match onUpdate (config (nodes w this)) with
      | Some f => [Updated this f (latest (nodes w this))]
      | None => []
      end
  | TriggerRender this => [Rendered this (latest (nodes w this))]
  | RenderMethod => [RenderedUnbound]
  end.

(** Is [ev] a call of the [onUpdate] of [this]? *)
Definition updates_of (this : NodeId) (ev : Event) : bool :=
  match ev with
  | Updated n _ _ => Nat.eqb n this
  | _ => false
  end.

(** A scenario: a mounted node with a subscribed value and a static entry. *)
Definition subscribed_with_static : list Op :=
  [New None None; NewValue (VNum 1); Mount 0 (Some 7); AddValue 0 "x" 0;
   SetStaticValues 0 (OneKey "y") (VStr "red")].


(** [current] is kept as an alias of [element] on every node. *)
Definition alias_in_step (w : World) : Prop :=
  forall n, current (nodes w n) = element (nodes w n).

(** A scenario: a mounted node with one subscribed value. *)
Definition mounted_and_subscribed : list Op :=
  [New None None; NewValue (VNum 1); Mount 0 (Some 7); AddValue 0 "x" 0].

(** A scenario: a child node with a callback ref, and what happens to it. *)
Definition child_lifecycle : list Op :=
  [NewValue (VNum 1); AddValue 1 "x" 0; RefOp 1 (Some 7);
   UpdateConfig 1 None; RefOp 1 None; New (Some 1) None].

(** A scenario: a change has scheduled the update of two nodes. *)
Definition two_updates_pending : list Op :=
  [New None None; New None None; NewValue (VNum 1);
   Mount 0 (Some 7); Mount 1 (Some 8);
   UpdateConfig 0 (Some {| onUpdate := Some 5 |});
   UpdateConfig 1 (Some {| onUpdate := Some 6 |});
   AddValue 0 "x" 0; AddValue 1 "y" 0; SetValue 0 (VNum 2)].

(** The world after a call of [this.scheduleRender] as a render-request
    subscriber. *)
Definition call_onRenderRequest_world (cb : RenderRequestCallback) (w : World) : World :=
  match cb with
  | ScheduleRender this =>
      with_clock (FrameClock.schedule FrameClock.RenderPhase (TriggerRender this)) w
  end.

(** ... and after the calls of all of [requests], one after the other. *)
Definition request_world (requests : list (SubId * RenderRequestCallback)) (w : World)
    : World :=
  fold_left (fun w0 e => call_onRenderRequest_world e.2 w0) requests w.

(** The [onRenderRequest] subscriptions a MotionValue holds. *)
Definition requesters (w : World) (v : ValId) : list (SubId * RenderRequestCallback) :=
  MotionValue.renderSubscribers (cells w v).

(** The subscription that an unsubscribe function was made for is no
    longer held by its MotionValue. *)
Definition cancelled (u : Unsubscribe) (w : World) : Prop :=
  match u with
  | UnsubscribeOnChange v h => forall cb, (h, cb) ∉ listeners w v
  | UnsubscribeOnRender v h => forall cb, (h, cb) ∉ requesters w v
  end.

(** From [w] to [w'] no MotionValue has gained a subscription. *)
Definition no_new_subscription (w w' : World) : Prop :=
  (forall v e, e ∈ listeners w' v -> e ∈ listeners w v)
  /\ (forall v e, e ∈ requesters w' v -> e ∈ requesters w v).

(** * Proofs *)

(** ** JsMap *)

Module JsMapFacts.
Section Facts.
Context {V : Type}.
Implicit Types (m : list (string * V)) (k : string) (v : V).

Lemma get_set_eq k v m : JsMap.get k (JsMap.set k v m) = Some v.
Proof.
  induction m as [|[k' x] m IH]; simpl.
  - by rewrite String.eqb_refl.
  - destruct (String.eqb_spec k k') as [->|Hne]; simpl.
    + by rewrite String.eqb_refl.
    + destruct (String.eqb_spec k k'); [done|]. exact IH.
Qed.

Lemma get_set_ne k k' v m : k <> k' -> JsMap.get k' (JsMap.set k v m) = JsMap.get k' m.
Proof.
  intros Hne. induction m as [|[k0 x] m IH]; simpl.
  - destruct (String.eqb_spec k' k); [congruence|done].
  - destruct (String.eqb_spec k k0) as [->|Hk]; simpl.
    + destruct (String.eqb_spec k' k0); [congruence|done].
    + destruct (String.eqb_spec k' k0); [done|exact IH].
Qed.

Lemma get_delete_eq k m : JsMap.get k (JsMap.delete k m) = None.
Proof.
  induction m as [|[k0 x] m IH]; simpl; [done|].
  destruct (String.eqb_spec k k0) as [->|Hk]; simpl; [exact IH|].
  destruct (String.eqb_spec k k0); [done|exact IH].
Qed.

Lemma get_delete_ne k k' m : k <> k' -> JsMap.get k' (JsMap.delete k m) = JsMap.get k' m.
Proof.
  intros Hne. induction m as [|[k0 x] m IH]; simpl; [done|].
  destruct (String.eqb_spec k k0) as [->|Hk]; simpl.
  - destruct (String.eqb_spec k' k0); [congruence|exact IH].
  - destruct (String.eqb_spec k' k0); [done|exact IH].
Qed.

Lemma delete_absent k m : JsMap.get k m = None -> JsMap.delete k m = m.
Proof.
  induction m as [|[k0 x] m IH]; simpl; [done|].
  destruct (String.eqb_spec k k0); [done|]. intros H. by rewrite IH.
Qed.

Lemma has_true k m : JsMap.has k m = true <-> exists v, JsMap.get k m = Some v.
Proof.
  unfold JsMap.has. destruct (JsMap.get k m); split; eauto; try done.
  intros [? ?]; done.
Qed.

Lemma has_false k m : JsMap.has k m = false <-> JsMap.get k m = None.
Proof. unfold JsMap.has. destruct (JsMap.get k m); split; done. Qed.

Lemma get_in_keys k v m : JsMap.get k m = Some v -> In k (JsMap.keys m).
Proof.
  induction m as [|[k0 x] m IH]; simpl; [done|].
  destruct (String.eqb_spec k k0) as [->|Hk]; [by left|]. intros H. right. by apply IH.
Qed.

Lemma keys_delete k k' m : In k' (JsMap.keys (JsMap.delete k m)) -> In k' (JsMap.keys m) /\ k' <> k.
Proof.
  induction m as [|[k0 x] m IH]; simpl; [done|].
  destruct (String.eqb_spec k k0) as [->|Hk]; simpl.
  - intros H. destruct (IH H). split; [by right|done].
  - intros [<-|H]; [split; [by left|congruence]|].
    destruct (IH H). split; [by right|done].
Qed.
End Facts.
End JsMapFacts.

(** ** Reading a world after an update *)

Lemma nodes_with_node_eq n f w : nodes (with_node n f w) n = f (nodes w n).
Proof. unfold with_node; simpl. apply fn_lookup_insert. Qed.

Lemma nodes_with_node_ne n m f w : n <> m -> nodes (with_node n f w) m = nodes w m.
Proof. intros. unfold with_node; simpl. by apply fn_lookup_insert_ne. Qed.

Lemma nodes_with_node n m f w :
  nodes (with_node n f w) m = if decide (n = m) then f (nodes w n) else nodes w m.
Proof.
  destruct (decide (n = m)) as [<-|]; [apply nodes_with_node_eq|by apply nodes_with_node_ne].
Qed.

Lemma cells_with_cell_eq v f w : cells (with_cell v f w) v = f (cells w v).
Proof. unfold with_cell; simpl. apply fn_lookup_insert. Qed.

Lemma cells_with_cell_ne v v' f w : v <> v' -> cells (with_cell v f w) v' = cells w v'.
Proof. intros. unfold with_cell; simpl. by apply fn_lookup_insert_ne. Qed.

Lemma cells_with_cell v v' f w :
  cells (with_cell v f w) v' = if decide (v = v') then f (cells w v) else cells w v'.
Proof.
  destruct (decide (v = v')) as [<-|]; [apply cells_with_cell_eq|by apply cells_with_cell_ne].
Qed.

(** ** A small program logic for [M] *)

Section Logic.
Context {A B : Type}.

Lemma total_ret (a : A) : total (ret a).
Proof. intros w. by exists a, w. Qed.

Lemma total_gets (f : World -> A) : total (gets f).
Proof. intros w. by exists (f w), w. Qed.

Lemma total_bind (m : M A) (k : A -> M B) :
  total m -> (forall a, total (k a)) -> total (bind m k).
Proof.
  intros Hm Hk w. destruct (Hm w) as (a & w1 & E).
  destruct (Hk a w1) as (b & w2 & E2). exists b, w2. unfold bind. by rewrite E.
Qed.

Lemma triple_ret (P : World -> Prop) (a : A) (Q : A -> World -> Prop) :
  (forall w, P w -> Q a w) -> triple P (ret a) Q.
Proof. intros H w a' w' HP E. inversion E; subst. by apply H. Qed.

Lemma triple_gets (P : World -> Prop) (f : World -> A) (Q : A -> World -> Prop) :
  (forall w, P w -> Q (f w) w) -> triple P (gets f) Q.
Proof. intros H w a' w' HP E. inversion E; subst. by apply H. Qed.

Lemma triple_throw (P : World -> Prop) e (Q : A -> World -> Prop) : triple P (throw e) Q.
Proof. intros w a w' _ E. discriminate E. Qed.

Lemma triple_bind (P : World -> Prop) (m : M A) (Q : A -> World -> Prop)
    (k : A -> M B) (R : B -> World -> Prop) :
  triple P m Q -> (forall a, triple (Q a) (k a) R) -> triple P (bind m k) R.
Proof.
  intros Hm Hk w b w' HP E. unfold bind in E.
  destruct (m w) as [[a w1]|e] eqn:E1; [|discriminate].
  eapply Hk; [|exact E]. eapply Hm; eauto.
Qed.

(** Reading the state and continuing: the value read is known. *)
Lemma triple_gets_bind (P : World -> Prop) (f : World -> A) (k : A -> M B)
    (R : B -> World -> Prop) :
  (forall a, triple (fun w => P w /\ f w = a) (k a) R) -> triple P (bind (gets f) k) R.
Proof.
  intros Hk w b w' HP E. unfold bind, gets in E. eapply Hk; [|exact E]. done.
Qed.

Lemma triple_conseq (P P' : World -> Prop) (m : M A) (Q Q' : A -> World -> Prop) :
  triple P' m Q' -> (forall w, P w -> P' w) -> (forall a w, Q' a w -> Q a w) ->
  triple P m Q.
Proof. intros H HP HQ w a w' Hw E. apply HQ. eapply H; eauto. Qed.
End Logic.

Lemma total_modify f : total (modify f).
Proof. intros w. by exists tt, (f w). Qed.

Lemma triple_modify (P : World -> Prop) f (Q : unit -> World -> Prop) :
  (forall w, P w -> Q tt (f w)) -> triple P (modify f) Q.
Proof. intros H w a w' HP E. inversion E; subst. by apply H. Qed.

Lemma total_when b m : total m -> total (when b m).
Proof. destruct b; [done|]. intros _. apply total_ret. Qed.

Lemma triple_when (P : World -> Prop) b m (Q : unit -> World -> Prop) :
  (b = true -> triple P m Q) -> (b = false -> forall w, P w -> Q tt w) ->
  triple P (when b m) Q.
Proof.
  destruct b; simpl; intros Ht Hf; [by apply Ht|]. apply triple_ret. by apply Hf.
Qed.

Lemma total_forM {A} (l : list A) (f : A -> M unit) :
  (forall a, total (f a)) -> total (forM l f).
Proof.
  intros Hf. induction l as [|a l IH]; simpl; [apply total_ret|].
  apply total_bind; [apply Hf|]. intros _. exact IH.
Qed.

(** A loop keeps what each of its rounds keeps. *)
Lemma triple_forM {A} (I : World -> Prop) (l : list A) (f : A -> M unit) :
  (forall a, In a l -> triple I (f a) (fun _ => I)) ->
  triple I (forM l f) (fun _ => I).
Proof.
  induction l as [|a l IH]; simpl; intros Hf.
  - apply triple_ret. done.
  - eapply triple_bind; [apply Hf; by left|]. intros u. apply IH.
    intros a' Ha'. apply Hf. by right.
Qed.

(** When [m] never throws, a triple gives the final world. *)
Lemma total_triple {A} (m : M A) (P : World -> Prop) (Q : A -> World -> Prop) w :
  total m -> triple P m Q -> P w -> exists a w', m w = Ok (a, w') /\ Q a w'.
Proof.
  intros Ht Hq HP. destruct (Ht w) as (a & w' & E). exists a, w'. split; [done|].
  eapply Hq; eauto.
Qed.

(** ** Which computations never throw *)

Create HintDb total discriminated.

Ltac totality :=
  repeat first
    [ apply total_ret | apply total_gets | apply total_modify
    | apply total_when | apply total_forM
    | apply total_bind
    | lazymatch goal with |- forall _, _ => intro end
    | match goal with
      | |- total (match ?x with _ => _ end) => destruct x
      end
    | solve [auto with total] ].

Lemma total_new init : total (MotionValueOps.new init).
Proof. intros w. unfold MotionValueOps.new. eauto. Qed.

Lemma total_call u : total (MotionValueOps.call u).
Proof. destruct u; apply total_modify. Qed.
#[export] Hint Resolve total_new total_call : total.

Lemma total_removeValue this key : total (removeValue this key).
Proof. unfold removeValue. totality. Qed.

Lemma total_subscribeToValue this key value : total (subscribeToValue this key value).
Proof.
  unfold subscribeToValue, MotionValueOps.onChange, MotionValueOps.onRenderRequest.
  totality.
Qed.
#[export] Hint Resolve total_removeValue total_subscribeToValue : total.

Lemma total_addValue this key value : total (addValue this key value).
Proof. unfold addValue, hasValue, MotionValueOps.get. totality. Qed.
#[export] Hint Resolve total_addValue : total.

Lemma total_getValue this key d : total (getValue this key d).
Proof. unfold getValue. totality. Qed.

Lemma total_forEachValue this callback :
  (forall value key, total (callback value key)) -> total (forEachValue this callback).
Proof. intros H. unfold forEachValue. totality. Qed.

Lemma total_setStaticValues this vals value : total (setStaticValues this vals value).
Proof. unfold setStaticValues, setSingleStaticValue. totality. Qed.

Lemma total_unmount this : total (unmount this).
Proof.
  unfold unmount, cancelSync_update, cancelSync_render. totality.
Qed.

Lemma total_mount this e : total (mount this (Some e)).
Proof.
  unfold mount, invariant. rewrite bool_decide_eq_true_2 by eauto. totality.
Qed.

Lemma total_call_onChange cb x : total (call_onChange cb x).
Proof. unfold call_onChange, setSingleStaticValue, sync_update. totality. Qed.
#[export] Hint Resolve total_call_onChange : total.

Lemma total_call_onRenderRequest cb : total (call_onRenderRequest cb).
Proof. unfold call_onRenderRequest, scheduleRender, sync_render. totality. Qed.
#[export] Hint Resolve total_call_onRenderRequest : total.

Lemma total_value_set value x : total (value_set value x).
Proof. unfold value_set. totality. Qed.

(** ** What a computation leaves alone *)

Lemma keeps_ret {A} P (a : A) : keeps P (ret a).
Proof. by apply triple_ret. Qed.

Lemma keeps_gets {A} P (f : World -> A) : keeps P (gets f).
Proof. by apply triple_gets. Qed.

Lemma keeps_throw {A} P e : keeps P (@throw A e).
Proof. apply triple_throw. Qed.

Lemma keeps_modify (P : World -> Prop) f : (forall w, P w -> P (f w)) -> keeps P (modify f).
Proof. intros. by apply triple_modify. Qed.

Lemma keeps_bind {A B} P (m : M A) (k : A -> M B) :
  keeps P m -> (forall a, keeps P (k a)) -> keeps P (bind m k).
Proof. intros Hm Hk. eapply triple_bind; [exact Hm|]. intros a. apply Hk. Qed.

Lemma keeps_when P b m : keeps P m -> keeps P (when b m).
Proof. intros. destruct b; simpl; [done|apply keeps_ret]. Qed.

Lemma keeps_forM {A} P (l : list A) (f : A -> M unit) :
  (forall a, In a l -> keeps P (f a)) -> keeps P (forM l f).
Proof. apply triple_forM. Qed.

(** The syntax-directed part of a [keeps] proof; [tac] settles the state
    updates, and whatever else remains is left to the caller. *)
Ltac keeping tac :=
  repeat first
    [ apply keeps_ret | apply keeps_gets | apply keeps_throw
    | apply keeps_when
    | apply keeps_bind
    | apply keeps_forM
    | lazymatch goal with |- forall _, _ => intro end
    | match goal with
      | |- keeps _ (match ?x with _ => _ end) => destruct x
      end
    | solve [apply keeps_modify; intros; tac]
    | solve [tac] ].

Section QuietFrame.
Context (P : World -> Prop) `{!Quiet P}.

Local Ltac quiet :=
  first [ apply (quiet_latest (P:=P)) | apply (quiet_config (P:=P))
        | apply (quiet_cell (P:=P)) | apply (quiet_clock (P:=P))
        | apply (quiet_log (P:=P)) | apply (quiet_refObject (P:=P)) ].

Local Ltac frame := keeping ltac:(first [solve [eauto] | quiet; solve [eauto]]).

Lemma frame_call u : keeps P (MotionValueOps.call u).
Proof. unfold MotionValueOps.call. frame. Qed.

Lemma frame_new init : keeps P (MotionValueOps.new init).
Proof. intros w a w' HP E. inversion E; subst. by apply quiet_new. Qed.

Lemma frame_setStaticValues this vals value : keeps P (setStaticValues this vals value).
Proof. unfold setStaticValues, setSingleStaticValue. frame. Qed.

Lemma frame_updateConfig this c : keeps P (updateConfig this c).
Proof. unfold updateConfig. frame. Qed.

Lemma frame_scheduleRender this : keeps P (scheduleRender this).
Proof. unfold scheduleRender, sync_render. frame. Qed.

Lemma frame_call_onChange cb x : keeps P (call_onChange cb x).
Proof. unfold call_onChange, setSingleStaticValue, sync_update. frame. Qed.

Local Hint Resolve frame_call_onChange frame_scheduleRender : core.

Lemma frame_call_onRenderRequest cb : keeps P (call_onRenderRequest cb).
Proof. unfold call_onRenderRequest. frame. Qed.

Local Hint Resolve frame_call_onRenderRequest : core.

Lemma frame_value_set value x : keeps P (value_set value x).
Proof. unfold value_set. frame. Qed.

Lemma frame_value_requestRender value : keeps P (value_requestRender value).
Proof. unfold value_requestRender. frame. Qed.

Lemma frame_call_process p : keeps P (call_process p).
Proof. unfold call_process, update, triggerRender, render. frame. Qed.

Local Hint Resolve frame_call_process : core.

Lemma frame_tick : keeps P tick.
Proof. unfold tick. frame. Qed.

Lemma frame_external_ref this el :
  keeps P (do r <- gets (fun w => externalRef (nodes w this));
           match r with
           | None => ret tt
           | Some (RefCallback f) => modify (with_log (RefCalled f el))
           | Some (RefObject o) => modify (with_refObject o el)
           end).
Proof. frame. Qed.
End QuietFrame.

Section Frame.
Context (P : World -> Prop) `{!Stable P}.

Local Ltac stable :=
  first [ apply (quiet_latest (P:=P)) | apply (stable_values (P:=P))
        | apply (stable_subscriptions (P:=P)) | apply (quiet_config (P:=P))
        | apply (quiet_cell (P:=P)) | apply (quiet_clock (P:=P))
        | apply (quiet_log (P:=P)) | apply (quiet_refObject (P:=P)) ].

Local Ltac frame :=
  keeping ltac:(first [ solve [eauto] | stable; solve [eauto]
                      | solve [apply frame_call, _] | solve [apply frame_new, _] ]).

Lemma frame_removeValue this key : keeps P (removeValue this key).
Proof. unfold removeValue. frame. Qed.

Lemma frame_subscribeToValue this key value : keeps P (subscribeToValue this key value).
Proof.
  unfold subscribeToValue, MotionValueOps.onChange, MotionValueOps.onRenderRequest.
  frame.
Qed.

Local Hint Resolve frame_removeValue frame_subscribeToValue : core.

Lemma frame_addValue this key value : keeps P (addValue this key value).
Proof. unfold addValue, hasValue, MotionValueOps.get. frame. Qed.

Local Hint Resolve frame_addValue : core.

Lemma frame_getValue this key d : keeps P (getValue this key d).
Proof. unfold getValue. frame. Qed.

Lemma frame_forEachValue this callback :
  (forall value key, keeps P (callback value key)) -> keeps P (forEachValue this callback).
Proof. intros H. unfold forEachValue. frame. Qed.

Lemma frame_unmount this : keeps P (unmount this).
Proof.
  unfold unmount, cancelSync_update, cancelSync_render. frame.
Qed.

Lemma frame_mount this el :
  (forall e w, el = Some e -> P w -> P (with_node this (set_element el) w)) ->
  keeps P (mount this el).
Proof.
  intros He. destruct el as [e|].
  - unfold mount, invariant. frame.
  - intros w a w' _ E. discriminate E.
Qed.

Lemma frame_ref this el :
  (forall e w, el = Some e -> P w -> P (with_node this (set_element el) w)) ->
  keeps P (ref this el).
Proof.
  intros He. unfold ref. apply keeps_bind.
  - case_bool_decide; [by apply frame_mount|apply frame_unmount].
  - intros u. apply frame_external_ref, _.
Qed.

(** Every step other than a construction and a mount keeps [P]; those
    two keep it when the caller shows that they do. *)
Lemma frame_step op :
  (forall p r, op = New p r -> keeps P (construct p r)) ->
  (forall this e w, op = Mount this (Some e) \/ op = RefOp this (Some e) ->
     P w -> P (with_node this (set_element (Some e)) w)) ->
  keeps P (step op).
Proof.
  intros Hnew Hmount. destruct op; simpl.
  - apply keeps_bind; [by eapply Hnew|intros; apply keeps_ret].
  - apply frame_addValue.
  - apply frame_removeValue.
  - apply keeps_bind; [apply frame_getValue|intros; apply keeps_ret].
  - apply frame_updateConfig, _.
  - apply frame_setStaticValues, _.
  - apply frame_scheduleRender, _.
  - apply frame_mount. intros; subst. eapply Hmount; eauto.
  - apply frame_unmount.
  - apply frame_ref. intros; subst. eapply Hmount; eauto.
  - apply keeps_bind; [apply frame_new, _|intros; apply keeps_ret].
  - apply frame_value_set, _.
  - apply frame_value_requestRender, _.
  - apply frame_tick, _.
Qed.
End Frame.

(** Properties of one field of one node, and of the allocation counter. *)
Lemma stable_field {T} (F : VisualElement -> T) (n : NodeId) (c : T) :
  (forall f nd, F (set_latest f nd) = F nd) ->
  (forall f nd, F (set_values f nd) = F nd) ->
  (forall f nd, F (set_valueSubscriptions f nd) = F nd) ->
  (forall x nd, F (set_config x nd) = F nd) ->
  Stable (fun w => F (nodes w n) = c).
Proof.
  intros H1 H2 H3 H4.
  split; [split|..]; intros; try done;
    rewrite nodes_with_node; case_decide; subst; congruence.
Qed.

#[export] Instance stable_allocated (n : NodeId) : Stable (fun w => n < nextNode w).
Proof. split; [split|..]; intros; done. Qed.

#[export] Instance stable_and P Q : Stable P -> Stable Q -> Stable (fun w => P w /\ Q w).
Proof.
  intros HP HQ. split; [split|..]; intros; destruct_and!; split;
    first [ by apply quiet_latest | by apply stable_values
          | by apply stable_subscriptions | by apply quiet_config
          | by apply quiet_cell | by apply quiet_clock | by apply quiet_log
          | by apply quiet_refObject | by apply quiet_new ].
Qed.

#[export] Instance stable_depth n c : Stable (fun w => depth (nodes w n) = c).
Proof. by apply stable_field. Qed.

#[export] Instance stable_element n c : Stable (fun w => element (nodes w n) = c).
Proof. by apply stable_field. Qed.

(** ** Construction and depth *)

Lemma construct_spec parent r w :
  exists w', construct parent r w = Ok (nextNode w, w')
    /\ depth (nodes w' (nextNode w)) = depth_of_child w parent
    /\ nextNode w' = S (nextNode w)
    /\ forall n, n <> nextNode w -> nodes w' n = nodes w n.
Proof.
  eexists. split; [reflexivity|]. simpl. rewrite fn_lookup_insert.
  repeat split. intros n Hn. by rewrite fn_lookup_insert_ne.
Qed.

Lemma nest_spec refs : forall parent w,
  exists ids w', nest refs parent w = Ok (ids, w')
    /\ length ids = length refs
    /\ nextNode w <= nextNode w'
    /\ (forall n, n < nextNode w -> nodes w' n = nodes w n)
    /\ forall i id, ids !! i = Some id ->
         depth (nodes w' id) = depth_of_child w parent + i.
Proof.
  induction refs as [|r refs IH]; intros parent w; simpl.
  - exists [], w. repeat split; done.
  - destruct (construct_spec parent r w) as (w1 & E1 & Hd & Hn & Hframe).
    destruct (IH (Some (nextNode w)) w1) as (ids & w2 & E2 & Hlen & Hle & Hfr & Hdepth).
    exists (nextNode w :: ids), w2. unfold bind at 1. rewrite E1.
    unfold bind at 1. rewrite E2. unfold ret.
    split; [done|]. split; [simpl; lia|]. split; [lia|]. split.
    + intros n Hlt. rewrite Hfr by lia. apply Hframe. lia.
    + intros [|i] id Hi; simpl in Hi.
      * inversion Hi; subst id. rewrite Hfr by lia. rewrite Hd. lia.
      * rewrite (Hdepth i id Hi). simpl. rewrite Hd. lia.
Qed.

Lemma construct_keeps_depth n c parent r :
  keeps (fun w => depth (nodes w n) = c /\ n < nextNode w) (construct parent r).
Proof.
  intros w a w' [Hd Hlt] E. inversion E; subst; simpl.
  rewrite fn_lookup_insert_ne by lia. split; [done|lia].
Qed.

Lemma step_keeps_depth n c op :
  keeps (fun w => depth (nodes w n) = c /\ n < nextNode w) (step op).
Proof.
  apply frame_step.
  - apply _.
  - intros. apply construct_keeps_depth.
  - intros this e w _ [Hd Hlt]. split; [|done].
    rewrite nodes_with_node. case_decide; subst; done.
Qed.

Lemma run_keeps_depth n c ops :
  keeps (fun w => depth (nodes w n) = c /\ n < nextNode w) (run ops).
Proof. apply keeps_forM. intros op _. apply step_keeps_depth. Qed.

(** C9: a node constructed without a parent has depth 0 and one constructed
    with a parent has the parent's depth plus one; no later operation
    changes the depth of a constructed node; and in a chain of nested
    constructions, each node the parent of the next, the node at position
    [i] (counting from 0) has depth [i], so the Nth has depth N-1. *)
Theorem depth_fixed_at_construction :
  (forall parent r w, exists w',
      construct parent r w = Ok (nextNode w, w')
      /\ depth (nodes w' (nextNode w))
         = match parent with Some p => depth (nodes w p) + 1 | None => 0 end)
  /\ (forall ops n w w',
        n < nextNode w -> run ops w = Ok (tt, w') ->
        depth (nodes w' n) = depth (nodes w n))
  /\ (forall refs w, exists ids w',
        nest refs None w = Ok (ids, w')
        /\ length ids = length refs
        /\ forall i id, ids !! i = Some id -> depth (nodes w' id) = i).
Proof.
  split; [|split].
  - intros parent r w. destruct (construct_spec parent r w) as (w' & E & Hd & _).
    exists w'. split; [done|]. by rewrite Hd.
  - intros ops n w w' Hlt E.
    by destruct (run_keeps_depth n (depth (nodes w n)) ops w tt w' (conj eq_refl Hlt) E).
  - intros refs w.
    destruct (nest_spec refs None w) as (ids & w' & E & Hlen & _ & _ & Hd).
    exists ids, w'. repeat split; [done..|]. intros i id Hi. by rewrite (Hd i id Hi).
Qed.

Lemma depth_fixed_at_construction_witness :
  exists w',
    run [New (Some 0) None; Mount 0 (Some 7); Unmount 0; New (Some 1) None]
      (world_after [New None None]) = Ok (tt, w')
    /\ depth (nodes w' 0) = depth (nodes (world_after [New None None]) 0).
Proof.
  eexists. split; [vm_compute; reflexivity|].
  apply (proj1 (proj2 depth_fixed_at_construction)
           [New (Some 0) None; Mount 0 (Some 7); Unmount 0; New (Some 1) None] 0).
  - vm_compute. lia.
  - vm_compute. reflexivity.
Defined.

(** ** The host instance *)

Lemma mount_stores this el :
  triple (fun _ => True) (mount this el) (fun _ w => element (nodes w this) = el).
Proof.
  destruct el as [e|]; [|intros w a w' _ E; discriminate E].
  unfold mount, invariant. simpl.
  apply (triple_bind _ _ (fun _ _ => True)); [by apply triple_ret|]. intros _.
  apply (triple_bind _ _ (fun _ w => element (nodes w this) = Some e)).
  - apply triple_modify. intros w _. by rewrite nodes_with_node_eq.
  - intros _. apply frame_forEachValue.
    intros. apply frame_subscribeToValue, _.
Qed.

Lemma unmount_keeps_element this n c :
  keeps (fun w => element (nodes w n) = c) (unmount this).
Proof. apply frame_unmount, _. Qed.

Lemma construct_keeps_element n c parent r :
  keeps (fun w => element (nodes w n) = c /\ n < nextNode w) (construct parent r).
Proof.
  intros w a w' [Hd Hlt] E. inversion E; subst; simpl.
  rewrite fn_lookup_insert_ne by lia. split; [done|lia].
Qed.

Lemma step_keeps_element n c op :
  (forall e, op <> Mount n (Some e)) -> (forall e, op <> RefOp n (Some e)) ->
  keeps (fun w => element (nodes w n) = c /\ n < nextNode w) (step op).
Proof.
  intros Hm Hr. apply frame_step.
  - apply _.
  - intros. apply construct_keeps_element.
  - intros this e w Hop [Hd Hlt]. split; [|done].
    rewrite nodes_with_node. case_decide; [|done]. subst this.
    destruct Hop as [Hop|Hop]; [by destruct (Hm e)|by destruct (Hr e)].
Qed.

Lemma ref_stores this e :
  triple (fun _ => True) (ref this (Some e)) (fun _ w => element (nodes w this) = Some e).
Proof.
  unfold ref. simpl. eapply triple_bind; [apply mount_stores|]. intros u. simpl.
  apply triple_gets_bind. intros r.
  destruct r as [[f|o]|].
  - apply triple_modify. intros w [H _]. exact H.
  - apply triple_modify. intros w [H _]. exact H.
  - apply triple_ret. intros w [H _]. exact H.
Qed.

Lemma step_changes_element op n w w' :
  n < nextNode w -> step op w = Ok (tt, w') ->
  element (nodes w' n) <> element (nodes w n) ->
  exists e, (op = Mount n (Some e) \/ op = RefOp n (Some e))
            /\ element (nodes w' n) = Some e.
Proof.
  intros Hlt E Hne.
  assert (Hk : (forall e, op <> Mount n (Some e)) -> (forall e, op <> RefOp n (Some e)) ->
               False).
  { intros Hm Hr. apply Hne.
    by destruct (step_keeps_element n (element (nodes w n)) op Hm Hr w tt w'
                   (conj eq_refl Hlt) E). }
  destruct op as [| | | | | | |this [e|]| |this [e|]| | | |];
    try (exfalso; apply Hk; intros; discriminate).
  - destruct (decide (this = n)) as [->|Hn].
    + exists e. split; [by left|]. by apply (mount_stores n (Some e) w tt w' I E).
    + exfalso; apply Hk; intros; congruence.
  - destruct (decide (this = n)) as [->|Hn].
    + exists e. split; [by right|]. by apply (ref_stores n e w tt w' I E).
    + exfalso; apply Hk; intros; congruence.
Qed.

(** C3 (as amended): [mount] stores the instance and [unmount] leaves it in
    place, so [getInstance] still answers with it after an unmount; the
    instance held by a constructed node changes only in a [mount] of that
    node (called directly or through [ref] with an element), and then to the
    element mounted. *)
Theorem instance_set_by_mount_only (w : World) (this : NodeId) (e : Instance) :
  (exists w1, mount this (Some e) w = Ok (tt, w1)
     /\ getInstance this w1 = Ok (Some e, w1)
     /\ exists w2, unmount this w1 = Ok (tt, w2)
          /\ getInstance this w2 = Ok (Some e, w2))
  /\ (forall op n w',
        n < nextNode w -> step op w = Ok (tt, w') ->
        element (nodes w' n) <> element (nodes w n) ->
        exists e', (op = Mount n (Some e') \/ op = RefOp n (Some e'))
                   /\ element (nodes w' n) = Some e').
Proof.
  split.
  - destruct (total_triple _ _ _ w (total_mount this e) (mount_stores this (Some e)) I)
      as ([] & w1 & E1 & H1).
    exists w1. split; [done|]. split; [unfold getInstance, gets; by rewrite H1|].
    destruct (total_triple _ _ _ w1 (total_unmount this)
                (unmount_keeps_element this this (Some e)) H1) as ([] & w2 & E2 & H2).
    exists w2. split; [done|]. unfold getInstance, gets. by rewrite H2.
  - intros op n w'. apply step_changes_element.
Qed.

Lemma instance_set_by_mount_only_witness :
  exists w',
    step (RefOp 0 (Some 8)) (world_after [New None None; Mount 0 (Some 7)]) = Ok (tt, w')
    /\ exists e', (RefOp 0 (Some 8) = Mount 0 (Some e') \/ RefOp 0 (Some 8) = RefOp 0 (Some e'))
                  /\ element (nodes w' 0) = Some e'.
Proof.
  eexists. split; [vm_compute; reflexivity|].
  refine (proj2 (instance_set_by_mount_only (world_after [New None None; Mount 0 (Some 7)]) 0 7)
            (RefOp 0 (Some 8)) 0 _ _ _ _).
  - vm_compute. lia.
  - vm_compute. reflexivity.
  - vm_compute. discriminate.
Defined.

(** C3 as stated fails: after a mount and an unmount the node is Unmounted
    in the spec's sense, yet [getInstance] still returns the instance. *)
Lemma instance_survives_unmount :
  exists w,
    run [New None None; Mount 0 (Some 7); Unmount 0] initial = Ok (tt, w)
    /\ Spec.lifecycle 0 [New None None; Mount 0 (Some 7); Unmount 0] = Spec.Unmounted
    /\ getInstance 0 w = Ok (Some 7, w).
Proof.
  eexists. split; [vm_compute; reflexivity|]. split; reflexivity.
Qed.

(** ** Unmounting *)

Lemma removeValue_node this key w :
  exists w', removeValue this key w = Ok (tt, w')
    /\ nodes w' this = remove_entry key (nodes w this)
    /\ (forall n, n <> this -> nodes w' n = nodes w n)
    /\ clock w' = clock w /\ log w' = log w.
Proof.
  unfold removeValue, bind, gets, modify.
  destruct (JsMap.get key (valueSubscriptions (nodes w this))) as [[u1 u2]|];
    [destruct u1, u2|]; simpl; eexists; (split; [reflexivity|]);
    rewrite !nodes_with_node_eq; (split; [reflexivity|]);
    (split; [|done]); intros n Hn; by rewrite !nodes_with_node_ne.
Qed.

Lemma unmount_loop this ks : forall w,
  exists w',
    forM ks (fun key =>
      do live <- gets (fun w => JsMap.get key (values (nodes w this)));
      match live with
      | Some _ => removeValue this key
      | None => ret tt
      end) w = Ok (tt, w')
    /\ nodes w' this = strip ks (nodes w this)
    /\ (forall n, n <> this -> nodes w' n = nodes w n)
    /\ clock w' = clock w /\ log w' = log w.
Proof.
  induction ks as [|k ks IH]; intros w; simpl.
  - exists w. done.
  - unfold bind at 1. unfold bind at 1. unfold gets at 1. unfold JsMap.has.
    destruct (JsMap.get k (values (nodes w this))) as [v|] eqn:Ek.
    + destruct (removeValue_node this k w) as (w1 & E1 & Hn & Ho & Hc & Hl).
      rewrite E1. destruct (IH w1) as (w2 & E2 & Hn2 & Ho2 & Hc2 & Hl2).
      exists w2. split; [exact E2|]. rewrite Hn2, Hn. split; [done|].
      split; [|split; congruence]. intros n Hne. rewrite Ho2, Ho; done.
    + unfold ret at 1. destruct (IH w) as (w2 & E2 & Hn2 & Ho2 & Hc2 & Hl2).
      exists w2. done.
Qed.

Lemma unmount_node this w :
  exists w', unmount this w = Ok (tt, w')
    /\ nodes w' this = strip (JsMap.keys (values (nodes w this))) (nodes w this)
    /\ (forall n, n <> this -> nodes w' n = nodes w n)
    /\ clock w' = FrameClock.cancel FrameClock.RenderPhase RenderMethod
                    (FrameClock.cancel FrameClock.UpdatePhase (Update this) (clock w))
    /\ log w' = log w.
Proof.
  unfold unmount, forEachValue. unfold bind at 1. unfold bind at 1. unfold gets at 1.
  destruct (unmount_loop this (JsMap.keys (values (nodes w this))) w)
    as (w1 & E1 & Hn & Ho & Hc & Hl).
  rewrite E1. eexists. split; [reflexivity|]. simpl. rewrite Hc. done.
Qed.

Lemma remove_entry_gone key nd : gone key (remove_entry key nd).
Proof.
  unfold gone, remove_entry; simpl.
  rewrite !JsMapFacts.get_delete_eq, lookup_delete_eq. done.
Qed.

Lemma remove_entry_other key k nd :
  key <> k ->
  JsMap.get k (values (remove_entry key nd)) = JsMap.get k (values nd)
  /\ latest (remove_entry key nd) !! k = latest nd !! k
  /\ JsMap.get k (valueSubscriptions (remove_entry key nd))
     = JsMap.get k (valueSubscriptions nd).
Proof.
  intros Hne. unfold remove_entry; simpl.
  rewrite !JsMapFacts.get_delete_ne, lookup_delete_ne by done. done.
Qed.

Lemma strip_unbound ks : forall nd k,
  JsMap.get k (values nd) = None ->
  JsMap.get k (values (strip ks nd)) = None
  /\ latest (strip ks nd) !! k = latest nd !! k
  /\ JsMap.get k (valueSubscriptions (strip ks nd)) = JsMap.get k (valueSubscriptions nd).
Proof.
  induction ks as [|k0 ks IH]; intros nd k Hk; simpl; [done|].
  destruct (JsMap.has k0 (values nd)) eqn:Hhas; [|by apply IH].
  assert (k0 <> k) as Hne.
  { intros ->. apply JsMapFacts.has_true in Hhas as [v Hv]. congruence. }
  destruct (remove_entry_other k0 k nd Hne) as (Hv & Hl & Hs).
  destruct (IH (remove_entry k0 nd) k) as (Hv' & Hl' & Hs'); [congruence|].
  rewrite Hv', Hl', Hs'. done.
Qed.

Lemma strip_gone ks nd k : gone k nd -> gone k (strip ks nd).
Proof.
  intros (Hv & Hl & Hs). destruct (strip_unbound ks nd k Hv) as (Hv' & Hl' & Hs').
  unfold gone. rewrite Hv', Hl', Hs'. done.
Qed.

Lemma strip_bound ks : forall nd k,
  In k ks -> JsMap.has k (values nd) = true -> gone k (strip ks nd).
Proof.
  induction ks as [|k0 ks IH]; intros nd k Hin Hhas; simpl; [done|].
  destruct (String.eqb_spec k0 k) as [->|Hne].
  - rewrite Hhas. apply strip_gone, remove_entry_gone.
  - destruct Hin as [?|Hin]; [done|]. apply IH; [done|].
    destruct (JsMap.has k0 (values nd)); [|done].
    destruct (remove_entry_other k0 k nd Hne) as (Hv & _).
    unfold JsMap.has in *. by rewrite Hv.
Qed.

Lemma strip_values_nil nd : values (strip (JsMap.keys (values nd)) nd) = [].
Proof.
  destruct (values (strip (JsMap.keys (values nd)) nd)) as [|[k v] m] eqn:E; [done|].
  exfalso.
  assert (JsMap.get k (values (strip (JsMap.keys (values nd)) nd)) = Some v) as Hget.
  { rewrite E. simpl. by rewrite String.eqb_refl. }
  destruct (JsMap.get k (values nd)) as [v0|] eqn:Hk.
  - destruct (strip_bound (JsMap.keys (values nd)) nd k) as (Hv & _).
    + by eapply JsMapFacts.get_in_keys.
    + unfold JsMap.has. by rewrite Hk.
    + congruence.
  - destruct (strip_unbound (JsMap.keys (values nd)) nd k Hk) as (Hv & _). congruence.
Qed.

(** C2 as stated fails: a node that was never mounted is Unmounted, and so
    is a node after an unmount; in both states an unmount removes a binding
    made in that state, and its snapshot entry. *)
Lemma unmount_while_unmounted_changes_state :
  (Spec.lifecycle 0 bound_before_mount = Spec.Unmounted
   /\ JsMap.has "x" (values (nodes (world_after bound_before_mount) 0)) = true
   /\ latest (nodes (world_after bound_before_mount) 0) !! "x" = Some (VNum 1)
   /\ exists w',
        unmount 0 (world_after bound_before_mount) = Ok (tt, w')
        /\ JsMap.has "x" (values (nodes w' 0)) = false
        /\ latest (nodes w' 0) !! "x" = None
        /\ nodes w' 0 <> nodes (world_after bound_before_mount) 0)
  /\ (Spec.lifecycle 0 bound_after_unmount = Spec.Unmounted
      /\ JsMap.has "x" (values (nodes (world_after bound_after_unmount) 0)) = true
      /\ latest (nodes (world_after bound_after_unmount) 0) !! "x" = Some (VNum 1)
      /\ exists w',
           unmount 0 (world_after bound_after_unmount) = Ok (tt, w')
           /\ JsMap.has "x" (values (nodes w' 0)) = false
           /\ latest (nodes w' 0) !! "x" = None
           /\ nodes w' 0 <> nodes (world_after bound_after_unmount) 0).
Proof.
  split.
  - split; [reflexivity|]. split; [vm_compute; reflexivity|].
    split; [vm_compute; reflexivity|].
    eexists. split; [vm_compute; reflexivity|].
    split; [vm_compute; reflexivity|]. split; [vm_compute; reflexivity|].
    intros H. apply (f_equal values) in H. vm_compute in H. discriminate H.
  - split; [reflexivity|]. split; [vm_compute; reflexivity|].
    split; [vm_compute; reflexivity|].
    eexists. split; [vm_compute; reflexivity|].
    split; [vm_compute; reflexivity|]. split; [vm_compute; reflexivity|].
    intros H. apply (f_equal values) in H. vm_compute in H. discriminate H.
Qed.

(** ** Static values *)

Lemma write_entries_union (l : list (string * Value)) :
  NoDup l.*1 -> forall m : ResolvedValues, foldl write_entry m l = list_to_map l ∪ m.
Proof.
  induction l as [|[k v] l IH]; intros Hnd m; simpl.
  - by rewrite (left_id_L ∅ (∪)).
  - inversion Hnd as [|? ? Hk Hnd']; subst.
    rewrite IH by done. unfold write_entry; simpl.
    rewrite <- insert_union_l. symmetry. apply insert_union_r.
    by apply not_elem_of_list_to_map_1.
Qed.

Lemma static_loop this l : forall w,
  exists w',
    forM l (fun e => setSingleStaticValue this e.1 e.2) w = Ok (tt, w')
    /\ nodes w' this = set_latest (fun m => foldl write_entry m l) (nodes w this)
    /\ (forall n, n <> this -> nodes w' n = nodes w n)
    /\ cells w' = cells w /\ nextVal w' = nextVal w
    /\ clock w' = clock w /\ log w' = log w.
Proof.
  induction l as [|e l IH]; intros w; simpl.
  - exists w. split; [done|]. split; [by destruct (nodes w this)|done].
  - unfold bind at 1. unfold setSingleStaticValue at 1. unfold modify.
    destruct (IH (with_node this (set_latest <[e.1:=e.2]>) w))
      as (w' & E & Hn & Ho & Hc & Hv & Hk & Hl).
    exists w'. split; [exact E|]. rewrite Hn, nodes_with_node_eq.
    split; [reflexivity|]. split; [|done].
    intros n Hne. rewrite Ho by done. by apply nodes_with_node_ne.
Qed.

(** C8: [setStaticValues], for one key or for every entry of a mapping,
    writes into the [latest] snapshot only: the node's value bindings and
    subscriptions, every MotionValue, every other node and the clock are
    as before, and no MotionValue is created. *)
Theorem setStaticValues_writes_latest_only
    (w : World) (this : NodeId) (vals : StaticValues) (value : Value) :
  exists w',
    setStaticValues this vals value w = Ok (tt, w')
    /\ latest (nodes w' this)
       = match vals with
         | OneKey key => <[key := value]> (latest (nodes w this))
         | Mapping entries => entries ∪ latest (nodes w this)
         end
    /\ values (nodes w' this) = values (nodes w this)
    /\ valueSubscriptions (nodes w' this) = valueSubscriptions (nodes w this)
    /\ element (nodes w' this) = element (nodes w this)
    /\ (forall n, n <> this -> nodes w' n = nodes w n)
    /\ cells w' = cells w /\ nextVal w' = nextVal w /\ clock w' = clock w.
Proof.
  destruct vals as [key|entries]; simpl.
  - eexists. split; [reflexivity|]. rewrite nodes_with_node_eq. simpl.
    repeat split. intros n Hn. by apply nodes_with_node_ne.
  - destruct (static_loop this (map_to_list entries) w)
      as (w' & E & Hn & Ho & Hc & Hv & Hk & Hl).
    exists w'. split; [exact E|]. rewrite Hn. simpl.
    rewrite write_entries_union by apply NoDup_fst_map_to_list.
    rewrite list_to_map_to_list. done.
Qed.

(** ** The registry methods as functions on the world *)

Lemma removeValue_eq this key w :
  removeValue this key w = Ok (tt, removeValue_world this key w).
Proof.
  unfold removeValue, removeValue_world, unsubscribe_world, bind, gets, modify.
  destruct (JsMap.get key (valueSubscriptions (nodes w this))) as [[u1 u2]|];
    [destruct u1, u2|]; reflexivity.
Qed.

Lemma subscribeToValue_eq this key value w :
  subscribeToValue this key value w = Ok (tt, subscribe_world this key value w).
Proof. reflexivity. Qed.

Lemma addValue_eq this key value w :
  addValue this key value w = Ok (tt, addValue_world this key value w).
Proof.
  unfold addValue, addValue_world, hasValue, bind, gets.
  destruct (JsMap.has key (values (nodes w this))); simpl.
  - rewrite removeValue_eq. unfold modify, MotionValueOps.get, gets. simpl.
    fold (bind_world this key value (removeValue_world this key w)).
    case_bool_decide; [apply subscribeToValue_eq|reflexivity].
  - unfold ret, modify, MotionValueOps.get, gets. simpl.
    fold (bind_world this key value w).
    case_bool_decide; [apply subscribeToValue_eq|reflexivity].
Qed.

(** *** The node after each of them *)

Lemma nodes_call_world u w : nodes (call_world u w) = nodes w.
Proof. by destruct u. Qed.

Lemma nodes_unsubscribe_world this key w : nodes (unsubscribe_world this key w) = nodes w.
Proof.
  unfold unsubscribe_world.
  destruct (JsMap.get key (valueSubscriptions (nodes w this))) as [[u1 u2]|]; [|done].
  by rewrite !nodes_call_world.
Qed.

Lemma nodes_removeValue_world this key w :
  nodes (removeValue_world this key w) this = remove_entry key (nodes w this).
Proof.
  unfold removeValue_world. rewrite !nodes_with_node_eq, nodes_unsubscribe_world. done.
Qed.

Lemma nodes_removeValue_world_ne this key w n :
  n <> this -> nodes (removeValue_world this key w) n = nodes w n.
Proof.
  intros Hn. unfold removeValue_world.
  rewrite !nodes_with_node_ne, nodes_unsubscribe_world; done.
Qed.

Lemma nodes_bind_world this key value w :
  nodes (bind_world this key value w) this
  = set_latest <[key := MotionValue.current (cells w value)]>
      (set_values (JsMap.set key value) (nodes w this)).
Proof. unfold bind_world. by rewrite !nodes_with_node_eq. Qed.

Lemma nodes_subscribe_world this key value w :
  nodes (subscribe_world this key value w) this
  = set_valueSubscriptions
      (JsMap.set key
         (UnsubscribeOnChange value (MotionValue.nextSubscription (cells w value)),
          UnsubscribeOnRender value (S (MotionValue.nextSubscription (cells w value)))))
      (nodes w this).
Proof.
  unfold subscribe_world. cbv zeta. rewrite nodes_with_node_eq, cells_with_cell_eq. done.
Qed.

(** *** The MotionValues after each of them *)

Lemma cells_call_world u w v :
  MotionValue.current (cells (call_world u w) v) = MotionValue.current (cells w v).
Proof. destruct u; unfold call_world; rewrite cells_with_cell; case_decide; subst; done. Qed.

Lemma cells_unsubscribe_world this key w v :
  MotionValue.current (cells (unsubscribe_world this key w) v)
  = MotionValue.current (cells w v).
Proof.
  unfold unsubscribe_world.
  destruct (JsMap.get key (valueSubscriptions (nodes w this))) as [[u1 u2]|]; [|done].
  by rewrite !cells_call_world.
Qed.

Lemma cells_subscribe_world this key value w v :
  cells (subscribe_world this key value w) v
  = if decide (value = v)
    then MotionValue.addRender (ScheduleRender this)
           (MotionValue.addChange (OnChange this key) (cells w value))
    else cells w v.
Proof.
  unfold subscribe_world. cbv zeta.
  change (cells (with_node ?n ?f ?w0)) with (cells w0).
  rewrite !cells_with_cell.
  case_decide; [|done]. subst. by rewrite decide_True.
Qed.

Lemma listeners_call_world u w v :
  listeners (call_world u w) v
  = match u with
    | UnsubscribeOnChange v' h =>
        if decide (v' = v) then MotionValue.drop h (listeners w v) else listeners w v
    | UnsubscribeOnRender _ _ => listeners w v
    end.
Proof.
  unfold listeners. destruct u as [v' h|v' h]; unfold call_world;
    rewrite cells_with_cell; case_decide; subst; done.
Qed.

Lemma listeners_subscribe_world this key value w v :
  listeners (subscribe_world this key value w) v
  = if decide (value = v)
    then listeners w v ++ [(MotionValue.nextSubscription (cells w v), OnChange this key)]
    else listeners w v.
Proof.
  unfold listeners. rewrite cells_subscribe_world. case_decide; subst; done.
Qed.

Lemma listens_spec w this key value :
  listens w this key value = true <-> exists h, (h, OnChange this key) ∈ listeners w value.
Proof.
  unfold listens, listeners. rewrite existsb_exists. split.
  - intros [[h cb] [Hin Hcb]]. simpl in Hcb. apply bool_decide_eq_true in Hcb. subst cb.
    exists h. by apply list_elem_of_In.
  - intros [h Hin]. exists (h, OnChange this key). split; [by apply list_elem_of_In|].
    by apply bool_decide_eq_true.
Qed.

Lemma listens_false w this key value :
  listens w this key value = false <->
  forall h, (h, OnChange this key) ∉ listeners w value.
Proof.
  rewrite <- not_true_iff_false, listens_spec. split.
  - intros Hno h Hin. apply Hno. by exists h.
  - intros Hno [h Hin]. by apply (Hno h).
Qed.

Lemma elem_of_drop {A} h (l : list (SubId * A)) e :
  e ∈ MotionValue.drop h l <-> e ∈ l /\ e.1 <> h.
Proof.
  unfold MotionValue.drop. rewrite !list_elem_of_In, filter_In.
  rewrite negb_true_iff, Nat.eqb_neq. done.
Qed.

(** ** Adding a value *)

Lemma addValue_world_unfold this key value w :
  addValue_world this key value w
  = let w2 := bind_world this key value (cleared_world this key w) in
    if bool_decide (is_Some (element (nodes w this)))
    then subscribe_world this key value w2 else w2.
Proof.
  unfold addValue_world, cleared_world. cbv zeta. rewrite nodes_bind_world. simpl.
  destruct (JsMap.has key (values (nodes w this))); [|done].
  by rewrite nodes_removeValue_world.
Qed.

Lemma current_cleared_world this key w v :
  MotionValue.current (cells (cleared_world this key w) v)
  = MotionValue.current (cells w v).
Proof.
  unfold cleared_world. destruct (JsMap.has key (values (nodes w this))); [|done].
  unfold removeValue_world.
  change (cells (with_node ?n ?f ?w0)) with (cells w0).
  apply cells_unsubscribe_world.
Qed.

Lemma subscriptions_cleared_world this key w :
  (JsMap.has key (values (nodes w this)) = false ->
   JsMap.get key (valueSubscriptions (nodes w this)) = None) ->
  JsMap.get key (valueSubscriptions (nodes (cleared_world this key w) this)) = None.
Proof.
  intros Hin. unfold cleared_world.
  destruct (JsMap.has key (values (nodes w this))); [|by apply Hin].
  rewrite nodes_removeValue_world. apply remove_entry_gone.
Qed.

Lemma addValue_world_node this key value w :
  JsMap.get key (values (nodes (addValue_world this key value w) this)) = Some value
  /\ latest (nodes (addValue_world this key value w) this) !! key
     = Some (MotionValue.current (cells w value))
  /\ element (nodes (addValue_world this key value w) this) = element (nodes w this)
  /\ forall v, MotionValue.current (cells (addValue_world this key value w) v)
               = MotionValue.current (cells w v).
Proof.
  rewrite addValue_world_unfold. cbv zeta.
  assert (Hel : element (nodes (cleared_world this key w) this) = element (nodes w this)).
  { unfold cleared_world. destruct (JsMap.has key (values (nodes w this))); [|done].
    by rewrite nodes_removeValue_world. }
  assert (Hcur : forall v,
    MotionValue.current (cells (bind_world this key value (cleared_world this key w)) v)
    = MotionValue.current (cells w v)).
  { intros v. change (cells (bind_world ?n ?k ?x ?w0)) with (cells w0).
    apply current_cleared_world. }
  case_bool_decide.
  - split; [|split; [|split]].
    + rewrite nodes_subscribe_world, nodes_bind_world. simpl.
      apply JsMapFacts.get_set_eq.
    + rewrite nodes_subscribe_world, nodes_bind_world. simpl.
      by rewrite lookup_insert_eq, current_cleared_world.
    + by rewrite nodes_subscribe_world, nodes_bind_world.
    + intros v. rewrite cells_subscribe_world.
      case_decide; subst; simpl; apply Hcur.
  - split; [|split; [|split]].
    + rewrite nodes_bind_world. simpl. apply JsMapFacts.get_set_eq.
    + rewrite nodes_bind_world. simpl.
      by rewrite lookup_insert_eq, current_cleared_world.
    + by rewrite nodes_bind_world.
    + exact Hcur.
Qed.

Lemma subscribe_world_subscribed this key value w :
  subscribed (subscribe_world this key value w) this key value = true.
Proof.
  unfold subscribed. rewrite nodes_subscribe_world.
  cbn [valueSubscriptions set_valueSubscriptions].
  rewrite JsMapFacts.get_set_eq, cells_subscribe_world, decide_True by done.
  rewrite !andb_true_iff, !bool_decide_eq_true. repeat split.
  - simpl. apply elem_of_app. right. by apply list_elem_of_singleton.
  - simpl. apply elem_of_app. right. by apply list_elem_of_singleton.
Qed.

Lemma subscribe_world_keeps_subscribed this key' value' key value w :
  key' <> key ->
  subscribed w this key value = true ->
  subscribed (subscribe_world this key' value' w) this key value = true.
Proof.
  intros Hne. unfold subscribed. rewrite nodes_subscribe_world.
  cbn [valueSubscriptions set_valueSubscriptions].
  rewrite JsMapFacts.get_set_ne by done.
  destruct (JsMap.get key (valueSubscriptions (nodes w this))) as [[[v h|] [|v' h']]|];
    try done.
  rewrite !andb_true_iff, !bool_decide_eq_true. intros [[[-> ->] H1] H2].
  repeat split; rewrite cells_subscribe_world; case_decide; subst; simpl; try done.
  - apply elem_of_app. by left.
  - apply elem_of_app. by left.
Qed.

Lemma addValue_world_subscribed this key value w :
  is_Some (element (nodes w this)) ->
  subscribed (addValue_world this key value w) this key value = true.
Proof.
  intros Hel. rewrite addValue_world_unfold. cbv zeta.
  rewrite bool_decide_eq_true_2 by done. apply subscribe_world_subscribed.
Qed.

Lemma addValue_world_deferred this key value w :
  element (nodes w this) = None ->
  (JsMap.has key (values (nodes w this)) = false ->
   JsMap.get key (valueSubscriptions (nodes w this)) = None) ->
  subscribed (addValue_world this key value w) this key value = false.
Proof.
  intros Hel Hin. rewrite addValue_world_unfold. cbv zeta.
  rewrite bool_decide_eq_false_2 by (rewrite Hel; by intros [? ?]).
  unfold subscribed. rewrite nodes_bind_world.
  cbn [valueSubscriptions set_latest set_values].
  by rewrite subscriptions_cleared_world.
Qed.

(** ** Mounting *)

Lemma mount_loop this ks : forall w,
  exists w',
    forM ks (fun key =>
      do live <- gets (fun w => JsMap.get key (values (nodes w this)));
      match live with
      | Some value => subscribeToValue this key value
      | None => ret tt
      end) w = Ok (tt, w')
    /\ values (nodes w' this) = values (nodes w this)
    /\ latest (nodes w' this) = latest (nodes w this)
    /\ element (nodes w' this) = element (nodes w this)
    /\ (forall v, MotionValue.current (cells w' v) = MotionValue.current (cells w v))
    /\ forall k v, JsMap.get k (values (nodes w this)) = Some v ->
         In k ks \/ subscribed w this k v = true -> subscribed w' this k v = true.
Proof.
  induction ks as [|k0 ks IH]; intros w; simpl.
  - exists w. repeat split; try done. by intros k v _ [[]|?].
  - unfold bind at 1. unfold bind at 1. unfold gets at 1.
    destruct (JsMap.get k0 (values (nodes w this))) as [v0|] eqn:E0.
    + rewrite subscribeToValue_eq.
      destruct (IH (subscribe_world this k0 v0 w)) as (w' & E & Hv & Hl & He & Hc & Hs).
      rewrite nodes_subscribe_world in Hv, Hl, He, Hs. simpl in Hv, Hl, He, Hs.
      exists w'. split; [exact E|]. split; [done|]. split; [done|]. split; [done|].
      split.
      * intros v. rewrite Hc, cells_subscribe_world. case_decide; subst; done.
      * intros k v Hk Hor. apply Hs; [done|].
        destruct (String.eqb_spec k0 k) as [->|Hne].
        -- right. assert (v = v0) as -> by congruence. apply subscribe_world_subscribed.
        -- destruct Hor as [[?|Hin]|Hsub]; [done|by left|right].
           by apply subscribe_world_keeps_subscribed.
    + unfold ret at 1. destruct (IH w) as (w' & E & Hv & Hl & He & Hc & Hs).
      exists w'. split; [exact E|]. repeat split; try done.
      intros k v Hk Hor. apply Hs; [done|].
      destruct Hor as [[->|Hin]|Hsub]; [congruence|by left|by right].
Qed.

Lemma mount_spec this e w :
  exists w',
    mount this (Some e) w = Ok (tt, w')
    /\ element (nodes w' this) = Some e
    /\ values (nodes w' this) = values (nodes w this)
    /\ latest (nodes w' this) = latest (nodes w this)
    /\ (forall v, MotionValue.current (cells w' v) = MotionValue.current (cells w v))
    /\ forall k v, JsMap.get k (values (nodes w this)) = Some v ->
         subscribed w' this k v = true.
Proof.
  unfold mount, invariant, forEachValue. simpl.
  unfold bind at 1. unfold ret at 1. unfold bind at 1. unfold modify at 1.
  unfold bind at 1. unfold gets at 1.
  set (w0 := with_node this (set_element (Some e)) w).
  destruct (mount_loop this (JsMap.keys (values (nodes w0 this))) w0)
    as (w' & E & Hv & Hl & He & Hc & Hs).
  exists w'. split; [exact E|].
  assert (Hw0 : nodes w0 this = set_element (Some e) (nodes w this))
    by apply nodes_with_node_eq.
  rewrite Hw0 in Hv, Hl, He, Hs. simpl in Hv, Hl, He, Hs.
  repeat split; try done.
  intros k v Hk. apply Hs; [done|]. left.
  by eapply JsMapFacts.get_in_keys.
Qed.

(** ** A MotionValue changing *)

Lemma call_onChange_eq cb x w : call_onChange cb x w = Ok (tt, call_onChange_world cb x w).
Proof.
  destruct cb as [this key]. unfold call_onChange, call_onChange_world, bind,
    setSingleStaticValue, modify, gets, sync_update. cbv zeta.
  by destruct (onUpdate _).
Qed.

Lemma nodes_call_onChange_world n k x w m :
  nodes (call_onChange_world (OnChange n k) x w) m
  = if decide (n = m)
    then set_latest <[k := x]> (set_latest <[k := x]> (nodes w n))
    else nodes w m.
Proof.
  unfold call_onChange_world. cbv zeta.
  assert (forall w0 : World,
    nodes (match onUpdate (config (nodes w0 n)) with
           | Some _ => with_clock (FrameClock.schedule FrameClock.UpdatePhase (Update n)) w0
           | None => w0
           end) m = nodes w0 m) as ->.
  { intros w0. by destruct (onUpdate _). }
  rewrite !nodes_with_node. case_decide; [|done]. subst. by rewrite decide_True.
Qed.

Lemma latest_call_onChange_world cb x w this key :
  latest (nodes (call_onChange_world cb x w) this) !! key
  = if targets this key cb then Some x else latest (nodes w this) !! key.
Proof.
  destruct cb as [n k]. rewrite nodes_call_onChange_world. unfold targets.
  case_decide as Hn.
  - subst n. simpl. destruct (decide (k = key)) as [->|Hk].
    + by rewrite bool_decide_eq_true_2, lookup_insert_eq.
    + rewrite bool_decide_eq_false_2 by congruence.
      by rewrite !lookup_insert_ne.
  - rewrite bool_decide_eq_false_2 by congruence. done.
Qed.

Lemma cells_call_onChange_world cb x w : cells (call_onChange_world cb x w) = cells w.
Proof. destruct cb as [n k]. unfold call_onChange_world. cbv zeta. by destruct (onUpdate _). Qed.

Lemma config_call_onChange_world cb x w m :
  config (nodes (call_onChange_world cb x w) m) = config (nodes w m).
Proof.
  destruct cb as [n k]. rewrite nodes_call_onChange_world. case_decide; subst; done.
Qed.

Lemma elem_of_enqueue p q p' :
  p' ∈ FrameClock.enqueue p q <-> p' = p \/ p' ∈ q.
Proof.
  unfold FrameClock.enqueue. case_bool_decide as Hin.
  - split; [by right|]. intros [->|?]; done.
  - rewrite elem_of_app, list_elem_of_singleton. tauto.
Qed.

Lemma updateQueue_call_onChange_world cb x w p :
  p ∈ FrameClock.updateQueue (clock (call_onChange_world cb x w)) <->
  p ∈ FrameClock.updateQueue (clock w)
  \/ exists n k, cb = OnChange n k /\ p = Update n /\ is_Some (onUpdate (config (nodes w n))).
Proof.
  destruct cb as [n k]. unfold call_onChange_world. cbv zeta.
  rewrite !nodes_with_node_eq.
  cbn [config set_latest].
  destruct (onUpdate (config (nodes w n))) as [f|] eqn:Ef.
  - unfold with_clock. cbn [clock FrameClock.schedule FrameClock.updateQueue].
    rewrite elem_of_enqueue. split.
    + intros [->|Hin]; [right|by left]. exists n, k. eauto.
    + intros [Hin|(n' & k' & Hcb & -> & _)]; [by right|left]. congruence.
  - split; [by left|]. intros [Hin|(n' & k' & Hcb & _ & Hs)]; [done|].
    inversion Hcb; subst. rewrite Ef in Hs. by destruct Hs.
Qed.

Lemma renderQueue_call_onChange_world cb x w :
  FrameClock.renderQueue (clock (call_onChange_world cb x w))
  = FrameClock.renderQueue (clock w).
Proof. destruct cb as [n k]. unfold call_onChange_world. cbv zeta. by destruct (onUpdate _). Qed.

Lemma notify_loop x (l : list (SubId * ChangeCallback)) : forall w,
  exists w',
    forM l (fun e => call_onChange e.2 x) w = Ok (tt, w')
    /\ cells w' = cells w
    /\ (forall this key,
          latest (nodes w' this) !! key
          = if existsb (fun e => targets this key e.2) l then Some x
            else latest (nodes w this) !! key)
    /\ (forall m, config (nodes w' m) = config (nodes w m))
    /\ (forall p,
          p ∈ FrameClock.updateQueue (clock w') <->
          p ∈ FrameClock.updateQueue (clock w)
          \/ exists h n k, (h, OnChange n k) ∈ l /\ p = Update n
                           /\ is_Some (onUpdate (config (nodes w n))))
    /\ FrameClock.renderQueue (clock w') = FrameClock.renderQueue (clock w).
Proof.
  induction l as [|[h cb] l IH]; intros w; simpl.
  - exists w. repeat split; try done; [by left|].
    intros [?|(h & n & k & Hin & _)]; [done|]. by apply elem_of_nil in Hin.
  - unfold bind at 1. rewrite call_onChange_eq.
    destruct (IH (call_onChange_world cb x w)) as (w' & E & Hc & Hl & Hcfg & Hq & Hr).
    exists w'. split; [exact E|]. split; [by rewrite Hc, cells_call_onChange_world|].
    split; [|split; [|split]].
    + intros this key. rewrite Hl, latest_call_onChange_world.
      destruct (targets this key cb); simpl; [|done]. by destruct (existsb _ l).
    + intros m. by rewrite Hcfg, config_call_onChange_world.
    + intros p. rewrite Hq, updateQueue_call_onChange_world. split.
      * intros [[Hin|(n & k & -> & -> & Hs)]|(h' & n & k & Hin & -> & Hs)].
        -- by left.
        -- right. exists h, n, k. split; [apply elem_of_cons; by left|done].
        -- right. exists h', n, k. split; [apply elem_of_cons; by right|].
           split; [done|]. by rewrite config_call_onChange_world in Hs.
      * intros [Hin|(h' & n & k & Hin & -> & Hs)]; [by left; left|].
        apply elem_of_cons in Hin as [Heq|Hin].
        -- inversion Heq; subst. left. right. by exists n, k.
        -- right. exists h', n, k. split; [done|]. split; [done|].
           by rewrite config_call_onChange_world.
    + by rewrite Hr, renderQueue_call_onChange_world.
Qed.

Lemma request_loop (l : list (SubId * RenderRequestCallback)) : forall w,
  forM l (fun e => call_onRenderRequest e.2) w = Ok (tt, request_world l w).
Proof.
  induction l as [|[h [n]] l IH]; intros w; [reflexivity|].
  simpl. unfold bind at 1. unfold scheduleRender, sync_render, modify. apply IH.
Qed.

(** Serving render requests touches the Render phase of the clock and
    nothing else. *)
Lemma request_world_outside (l : list (SubId * RenderRequestCallback)) : forall w,
  nodes (request_world l w) = nodes w
  /\ cells (request_world l w) = cells w
  /\ log (request_world l w) = log w
  /\ refObjects (request_world l w) = refObjects w
  /\ FrameClock.updateQueue (clock (request_world l w)) = FrameClock.updateQueue (clock w).
Proof.
  induction l as [|[h [n]] l IH]; intros w; [done|].
  exact (IH (with_clock (FrameClock.schedule FrameClock.RenderPhase (TriggerRender n)) w)).
Qed.

Lemma renderQueue_request_world (l : list (SubId * RenderRequestCallback)) : forall w p,
  p ∈ FrameClock.renderQueue (clock (request_world l w)) <->
  p ∈ FrameClock.renderQueue (clock w)
  \/ exists h n, (h, ScheduleRender n) ∈ l /\ p = TriggerRender n.
Proof.
  induction l as [|[h [n]] l IH]; intros w p.
  - split; [by left|]. intros [?|(h & n & Hin & _)]; [done|]. by apply elem_of_nil in Hin.
  - change (request_world ((h, ScheduleRender n) :: l) w)
      with (request_world l
              (with_clock (FrameClock.schedule FrameClock.RenderPhase (TriggerRender n)) w)).
    rewrite IH. cbn [clock with_clock FrameClock.schedule FrameClock.renderQueue].
    rewrite elem_of_enqueue. split.
    + intros [[->|Hin]|(h' & n' & Hin & ->)].
      * right. exists h, n. split; [apply elem_of_cons; by left|done].
      * by left.
      * right. exists h', n'. split; [apply elem_of_cons; by right|done].
    + intros [Hin|(h' & n' & Hin & ->)]; [by left; right|].
      apply elem_of_cons in Hin as [Heq|Hin].
      * inversion Heq; subst. left. by left.
      * right. by exists h', n'.
Qed.

(** A write as two loops: the [onChange] subscribers, then the render
    requests. *)
Lemma value_set_unfold value x w :
  value_set value x w
  = match forM (listeners w value) (fun e => call_onChange e.2 x)
            (with_cell value (MotionValue.write x) w) with
    | Ok (_, w1) => Ok (tt, request_world (requesters w1 value) w1)
    | Throw e => Throw e
    end.
Proof.
  unfold value_set. unfold bind at 1. unfold modify at 1.
  unfold bind at 1. unfold gets at 1.
  assert (MotionValue.updateSubscribers
            (cells (with_cell value (MotionValue.write x) w) value)
          = listeners w value) as ->.
  { by rewrite cells_with_cell_eq. }
  unfold bind at 1.
  destruct (forM _ _ _) as [[[] w1]|e]; [|done].
  unfold bind, gets. apply request_loop.
Qed.

Lemma value_set_spec value x w :
  exists w',
    value_set value x w = Ok (tt, w')
    /\ MotionValue.current (cells w' value) = x
    /\ (forall v, listeners w' v = listeners w v)
    /\ (forall this key,
          latest (nodes w' this) !! key
          = if listens w this key value then Some x else latest (nodes w this) !! key)
    /\ (forall m, config (nodes w' m) = config (nodes w m))
    /\ (forall p,
          p ∈ FrameClock.updateQueue (clock w') <->
          p ∈ FrameClock.updateQueue (clock w)
          \/ exists n k, listens w n k value = true /\ p = Update n
                         /\ is_Some (onUpdate (config (nodes w n))))
    /\ (forall p,
          p ∈ FrameClock.renderQueue (clock w') <->
          p ∈ FrameClock.renderQueue (clock w)
          \/ exists h n, (h, ScheduleRender n) ∈ requesters w value /\ p = TriggerRender n).
Proof.
  rewrite value_set_unfold.
  set (w0 := with_cell value (MotionValue.write x) w).
  assert (Hsubs : forall v, listeners w0 v = listeners w v).
  { intros v. unfold listeners, w0. rewrite cells_with_cell.
    case_decide; subst; reflexivity. }
  assert (Hreq : requesters w0 value = requesters w value).
  { unfold requesters, w0. by rewrite cells_with_cell_eq. }
  destruct (notify_loop x (listeners w value) w0) as (w' & E & Hc & Hl & Hcfg & Hq & Hr).
  rewrite E.
  destruct (request_world_outside (requesters w' value) w') as (Rn & Rc & _ & _ & Ru).
  eexists. split; [reflexivity|]. rewrite Rn, Rc, Ru.
  split; [|split; [|split; [|split; [|split]]]].
  - rewrite Hc. unfold w0. by rewrite cells_with_cell_eq.
  - intros v. rewrite <- Hsubs. unfold listeners. by rewrite Rc, Hc.
  - intros this key. rewrite Hl. reflexivity.
  - intros m. by rewrite Hcfg.
  - intros p. rewrite Hq. split.
    + intros [?|(h & n & k & Hin & -> & Hs)]; [by left|right].
      exists n, k. split; [|done]. apply listens_spec. by exists h.
    + intros [?|(n & k & Hli & -> & Hs)]; [by left|right].
      apply listens_spec in Hli as [h Hin]. by exists h, n, k.
  - intros p. rewrite renderQueue_request_world, Hr.
    assert (requesters w' value = requesters w value) as ->; [|done].
    rewrite <- Hreq. unfold requesters. by rewrite Hc.
Qed.

Lemma subscribed_listens w this key value :
  subscribed w this key value = true -> listens w this key value = true.
Proof.
  unfold subscribed.
  destruct (JsMap.get key (valueSubscriptions (nodes w this))) as [[[v h|] [|v' h']]|];
    try done.
  rewrite !andb_true_iff, !bool_decide_eq_true. intros [[[-> ->] H1] H2].
  apply listens_spec. by exists h.
Qed.

(** Nothing in [addValue] makes a MotionValue other than the one added
    listen to the node, and unsubscribing only removes listeners. *)
Lemma listeners_unsubscribe_world this key w v e :
  e ∈ listeners (unsubscribe_world this key w) v -> e ∈ listeners w v.
Proof.
  unfold unsubscribe_world.
  destruct (JsMap.get key (valueSubscriptions (nodes w this))) as [[u1 u2]|]; [|done].
  rewrite !listeners_call_world.
  destruct u2 as [v2 h2|v2 h2], u1 as [v1 h1|v1 h1];
    repeat case_decide; rewrite ?elem_of_drop; tauto.
Qed.

Lemma listeners_removeValue_world this key w v :
  listeners (removeValue_world this key w) v = listeners (unsubscribe_world this key w) v.
Proof. reflexivity. Qed.

Lemma listeners_cleared_world this key w v e :
  e ∈ listeners (cleared_world this key w) v -> e ∈ listeners w v.
Proof.
  unfold cleared_world. destruct (JsMap.has key (values (nodes w this))); [|done].
  rewrite listeners_removeValue_world. apply listeners_unsubscribe_world.
Qed.

Lemma listeners_addValue_world_other this key value w v :
  v <> value ->
  listeners (addValue_world this key value w) v = listeners (cleared_world this key w) v.
Proof.
  intros Hne. rewrite addValue_world_unfold. cbv zeta. case_bool_decide.
  - rewrite listeners_subscribe_world. by rewrite decide_False.
  - done.
Qed.

Lemma listens_addValue_world_deferred this key value w :
  element (nodes w this) = None ->
  listens w this key value = false ->
  listens (addValue_world this key value w) this key value = false.
Proof.
  intros Hel Hno. rewrite listens_false in *. intros h Hin.
  apply (Hno h). rewrite addValue_world_unfold in Hin. cbv zeta in Hin.
  rewrite bool_decide_eq_false_2 in Hin by (rewrite Hel; by intros [? ?]).
  by apply listeners_cleared_world in Hin.
Qed.

(** ** getValue *)

Lemma nextVal_addValue_world this key value w :
  nextVal (addValue_world this key value w) = nextVal w.
Proof.
  unfold addValue_world, subscribe_world, bind_world, removeValue_world,
    unsubscribe_world. cbv zeta.
  assert (forall u w0, nextVal (call_world u w0) = nextVal w0) as Hcall
    by (by intros [] ?).
  repeat case_match; cbn [nextVal with_node with_cell]; rewrite ?Hcall; done.
Qed.

(** C7: [getValue] returns the bound value when there is one; with no
    binding and a default it creates a MotionValue whose reading is the
    default, registers it with [addValue] (so [hasValue] answers true and
    [latest] holds the default) and returns it; with no binding and no
    default it returns nothing and does not throw. *)
Theorem getValue_bound_or_default (w : World) (this : NodeId) (key : string) (d : Value) :
  (forall v, JsMap.get key (values (nodes w this)) = Some v ->
             getValue this key d w = Ok (Some v, w))
  /\ (JsMap.get key (values (nodes w this)) = None -> d <> VUndefined ->
      exists w',
        getValue this key d w = Ok (Some (nextVal w), w')
        /\ MotionValueOps.get (nextVal w) w' = Ok (d, w')
        /\ hasValue this key w' = Ok (true, w')
        /\ JsMap.get key (values (nodes w' this)) = Some (nextVal w)
        /\ latest (nodes w' this) !! key = Some d
        /\ nextVal w' = S (nextVal w))
  /\ (JsMap.get key (values (nodes w this)) = None -> d = VUndefined ->
      getValue this key d w = Ok (None, w)).
Proof.
  split; [|split].
  - intros v Hv. unfold getValue, bind, gets. by rewrite Hv.
  - intros Hnone Hd. unfold getValue, bind, gets. rewrite Hnone.
    rewrite bool_decide_eq_true_2 by done.
    unfold MotionValueOps.new at 1.
    set (wn := mkWorld _ _ _ _ _ _ _).
    rewrite addValue_eq. unfold ret. eexists. split; [reflexivity|].
    destruct (addValue_world_node this key (nextVal w) wn) as (Hv & Hl & _ & Hc).
    assert (Hcell : MotionValue.current (cells wn (nextVal w)) = d).
    { unfold wn. cbn [cells]. by rewrite fn_lookup_insert. }
    split; [|split; [|split; [|split]]].
    + unfold MotionValueOps.get, gets. by rewrite Hc, Hcell.
    + unfold hasValue, gets, JsMap.has. by rewrite Hv.
    + exact Hv.
    + by rewrite Hl, Hcell.
    + by rewrite nextVal_addValue_world.
  - intros Hnone ->. unfold getValue, bind, gets. by rewrite Hnone.
Qed.

Lemma getValue_bound_or_default_witness :
  exists w',
    getValue 0 "x" (VNum 3) (world_after [New None None]) = Ok (Some 0, w')
    /\ MotionValueOps.get 0 w' = Ok (VNum 3, w')
    /\ hasValue 0 "x" w' = Ok (true, w')
    /\ JsMap.get "x" (values (nodes w' 0)) = Some 0
    /\ latest (nodes w' 0) !! "x" = Some (VNum 3)
    /\ nextVal w' = 1.
Proof.
  apply (proj1 (proj2 (getValue_bound_or_default (world_after [New None None]) 0 "x" (VNum 3)))).
  - vm_compute. reflexivity.
  - discriminate.
Defined.

(** ** Subscription records stay within the bindings *)

Lemma records_with_node n f w :
  records_within w -> records_within_node (f (nodes w n)) ->
  records_within (with_node n f w).
Proof.
  intros Hw Hf m. rewrite nodes_with_node. case_decide; [done|apply Hw].
Qed.

#[export] Instance quiet_records_within : Quiet records_within.
Proof.
  split; intros; try done; apply records_with_node; try done;
    match goal with H : records_within ?w |- context [nodes ?w ?n] => exact (H n) end.
Qed.

Lemma records_remove_entry key nd :
  records_within_node nd -> records_within_node (remove_entry key nd).
Proof.
  intros Hnd k Hk. destruct (String.eqb_spec key k) as [->|Hne].
  - apply remove_entry_gone.
  - destruct (remove_entry_other key k nd Hne) as (Hv & _ & Hs).
    rewrite Hs. apply Hnd. unfold JsMap.has in *. by rewrite <- Hv.
Qed.

Lemma records_set_value key value nd :
  records_within_node nd -> records_within_node (set_values (JsMap.set key value) nd).
Proof.
  intros Hnd k Hk. simpl in *. apply Hnd.
  destruct (String.eqb_spec key k) as [->|Hne].
  - unfold JsMap.has in Hk. by rewrite JsMapFacts.get_set_eq in Hk.
  - unfold JsMap.has in *. by rewrite JsMapFacts.get_set_ne in Hk.
Qed.

Lemma records_set_subscription key u nd :
  records_within_node nd -> JsMap.has key (values nd) = true ->
  records_within_node (set_valueSubscriptions (JsMap.set key u) nd).
Proof.
  intros Hnd Hhas k Hk. simpl in *.
  destruct (String.eqb_spec key k) as [->|Hne]; [congruence|].
  rewrite JsMapFacts.get_set_ne by done. by apply Hnd.
Qed.

Lemma nodes_subscribe_world_ne this key value w n :
  n <> this -> nodes (subscribe_world this key value w) n = nodes w n.
Proof. intros Hn. unfold subscribe_world. cbv zeta. by rewrite nodes_with_node_ne. Qed.

Lemma records_removeValue this key : keeps records_within (removeValue this key).
Proof.
  intros w a w' Hw E. rewrite removeValue_eq in E. inversion E; subst. intros n.
  destruct (decide (n = this)) as [->|Hn].
  - rewrite nodes_removeValue_world. apply records_remove_entry, Hw.
  - rewrite nodes_removeValue_world_ne by done. apply Hw.
Qed.

Lemma records_subscribeToValue this key value :
  triple (fun w => records_within w /\ JsMap.has key (values (nodes w this)) = true)
    (subscribeToValue this key value) (fun _ => records_within).
Proof.
  intros w a w' [Hw Hhas] E. rewrite subscribeToValue_eq in E. inversion E; subst.
  intros n. destruct (decide (n = this)) as [->|Hn].
  - rewrite nodes_subscribe_world. by apply records_set_subscription.
  - rewrite nodes_subscribe_world_ne by done. apply Hw.
Qed.

Lemma records_addValue this key value : keeps records_within (addValue this key value).
Proof.
  unfold addValue. apply keeps_bind; [apply keeps_gets|]. intros bound.
  apply keeps_bind; [apply keeps_when, records_removeValue|]. intros _.
  apply (triple_bind _ _
           (fun _ w => records_within w /\ JsMap.has key (values (nodes w this)) = true)).
  { apply triple_modify. intros w Hw. split.
    - apply records_with_node; [done|]. apply records_set_value, Hw.
    - rewrite nodes_with_node_eq. simpl. unfold JsMap.has.
      by rewrite JsMapFacts.get_set_eq. }
  intros _. apply triple_gets_bind. intros x.
  apply (triple_bind _ _
           (fun _ w => records_within w /\ JsMap.has key (values (nodes w this)) = true)).
  { apply triple_modify. intros w [[Hw Hhas] _]. split.
    - apply quiet_latest, Hw.
    - by rewrite nodes_with_node_eq. }
  intros _. apply triple_gets_bind. intros el.
  apply triple_when.
  - intros _. eapply triple_conseq; [apply records_subscribeToValue| |done].
    by intros w [H _].
  - by intros _ w [[H _] _].
Qed.

Lemma records_forEach_subscribe this :
  keeps records_within
    (forEachValue this (fun value key => subscribeToValue this key value)).
Proof.
  unfold forEachValue. apply triple_gets_bind. intros entries.
  eapply triple_conseq; [apply (triple_forM records_within)| |done]; [|by intros w [H _]].
  intros key _. apply triple_gets_bind. intros [value|].
  - eapply triple_conseq; [apply records_subscribeToValue| |done].
    intros w [Hw Hget]. split; [done|]. unfold JsMap.has. by rewrite Hget.
  - apply triple_ret. by intros w [H _].
Qed.

Lemma records_mount this el : keeps records_within (mount this el).
Proof.
  destruct el as [e|]; [|intros w a w' _ E; discriminate E].
  unfold mount, invariant. simpl. apply keeps_bind; [apply keeps_ret|]. intros _.
  apply keeps_bind; [|intros _; apply records_forEach_subscribe].
  apply keeps_modify. intros w Hw. apply records_with_node; [done|]. exact (Hw this).
Qed.

Lemma records_unmount this : keeps records_within (unmount this).
Proof.
  unfold unmount. apply keeps_bind.
  - unfold forEachValue. apply keeps_bind; [apply keeps_gets|]. intros entries.
    apply keeps_forM. intros key _. apply keeps_bind; [apply keeps_gets|].
    intros [v|]; [apply records_removeValue|apply keeps_ret].
  - intros _. unfold cancelSync_update, cancelSync_render.
    keeping ltac:(by apply quiet_clock).
Qed.

Lemma records_step op : keeps records_within (step op).
Proof.
  destruct op; simpl.
  - apply keeps_bind; [|intros; apply keeps_ret].
    intros w a w' Hw E. inversion E; subst. intros n. simpl.
    destruct (decide (nextNode w = n)) as [<-|Hn].
    + rewrite fn_lookup_insert. by intros k _.
    + rewrite fn_lookup_insert_ne by done. apply Hw.
  - apply records_addValue.
  - apply records_removeValue.
  - apply keeps_bind; [|intros; apply keeps_ret].
    unfold getValue. apply keeps_bind; [apply keeps_gets|]. intros [v|]; [apply keeps_ret|].
    case_bool_decide; [|apply keeps_ret].
    apply keeps_bind; [apply frame_new, _|]. intros fresh.
    apply keeps_bind; [apply records_addValue|intros; apply keeps_ret].
  - apply frame_updateConfig, _.
  - apply frame_setStaticValues, _.
  - apply frame_scheduleRender, _.
  - apply records_mount.
  - apply records_unmount.
  - unfold ref. apply keeps_bind.
    + case_bool_decide; [apply records_mount|apply records_unmount].
    + intros u. apply frame_external_ref, _.
  - apply keeps_bind; [apply frame_new, _|intros; apply keeps_ret].
  - apply frame_value_set, _.
  - apply frame_value_requestRender, _.
  - apply frame_tick, _.
Qed.

(** Every state the class produces from the initial world records
    subscriptions for bound keys only. *)
Lemma records_reachable ops w : run ops initial = Ok (tt, w) -> records_within w.
Proof.
  intros E.
  apply (keeps_forM records_within ops step (fun op _ => records_step op) initial tt w);
    [|exact E].
  by intros n k _.
Qed.

(** ** Subscriptions that end *)

Lemma requesters_call_world u w v :
  requesters (call_world u w) v
  = match u with
    | UnsubscribeOnRender v' h =>
        if decide (v' = v) then MotionValue.drop h (requesters w v) else requesters w v
    | UnsubscribeOnChange _ _ => requesters w v
    end.
Proof.
  unfold requesters. destruct u as [v' h|v' h]; unfold call_world;
    rewrite cells_with_cell; case_decide; subst; done.
Qed.

Lemma no_new_subscription_refl w : no_new_subscription w w.
Proof. by split. Qed.

Lemma no_new_subscription_trans w1 w2 w3 :
  no_new_subscription w1 w2 -> no_new_subscription w2 w3 -> no_new_subscription w1 w3.
Proof. intros [H1 H2] [H3 H4]. split; intros v e He; [apply H1, H3|apply H2, H4]; done. Qed.

Lemma call_world_no_new_subscription u w : no_new_subscription w (call_world u w).
Proof.
  split; intros v e; rewrite ?listeners_call_world, ?requesters_call_world;
    destruct u as [v' h|v' h]; try done; case_decide; try done;
    rewrite elem_of_drop; tauto.
Qed.

Lemma call_world_cancelled u w : cancelled u (call_world u w).
Proof.
  destruct u as [v h|v h]; intros cb;
    rewrite ?listeners_call_world, ?requesters_call_world, decide_True by done;
    rewrite elem_of_drop; simpl; tauto.
Qed.

Lemma cancelled_later u w w' : no_new_subscription w w' -> cancelled u w -> cancelled u w'.
Proof.
  intros [H1 H2]. destruct u as [v h|v h]; intros Hc cb Hin; apply (Hc cb); auto.
Qed.

Lemma removeValue_world_no_new_subscription this key w :
  no_new_subscription w (removeValue_world this key w).
Proof.
  assert (no_new_subscription w (unsubscribe_world this key w)) as [H1 H2].
  { unfold unsubscribe_world.
    destruct (JsMap.get key (valueSubscriptions (nodes w this))) as [[u1 u2]|];
      [|apply no_new_subscription_refl].
    eapply no_new_subscription_trans; apply call_world_no_new_subscription. }
  split; [exact H1|exact H2].
Qed.

(** [removeValue] calls both functions it has on record for the key. *)
Lemma removeValue_world_cancels this key w u1 u2 :
  JsMap.get key (valueSubscriptions (nodes w this)) = Some (u1, u2) ->
  cancelled u1 (removeValue_world this key w) /\ cancelled u2 (removeValue_world this key w).
Proof.
  intros Hrec.
  assert (cancelled u1 (unsubscribe_world this key w)
          /\ cancelled u2 (unsubscribe_world this key w)) as [H1 H2].
  { unfold unsubscribe_world. rewrite Hrec. split; [|apply call_world_cancelled].
    eapply cancelled_later; [apply call_world_no_new_subscription|].
    apply call_world_cancelled. }
  split; [destruct u1|destruct u2]; done.
Qed.

Lemma unmount_loop_cancels this ks : forall w w',
  forM ks (fun key =>
    do live <- gets (fun w => JsMap.get key (values (nodes w this)));
    match live with
    | Some _ => removeValue this key
    | None => ret tt
    end) w = Ok (tt, w') ->
  no_new_subscription w w'
  /\ forall k u1 u2,
       k ∈ ks -> JsMap.has k (values (nodes w this)) = true ->
       JsMap.get k (valueSubscriptions (nodes w this)) = Some (u1, u2) ->
       cancelled u1 w' /\ cancelled u2 w'.
Proof.
  induction ks as [|k0 ks IH]; intros w w'; simpl.
  - intros [= ->]. split; [apply no_new_subscription_refl|].
    intros k u1 u2 Hin. by apply elem_of_nil in Hin.
  - unfold bind at 1. unfold bind at 1. unfold gets at 1.
    destruct (JsMap.get k0 (values (nodes w this))) as [v0|] eqn:E0.
    + rewrite removeValue_eq. intros E. destruct (IH _ _ E) as [Hsub Hrest].
      pose proof (removeValue_world_no_new_subscription this k0 w) as Hfirst.
      split; [by eapply no_new_subscription_trans|].
      intros k u1 u2 Hin Hhas Hrec.
      destruct (String.eqb_spec k0 k) as [->|Hne].
      * destruct (removeValue_world_cancels this k w u1 u2 Hrec) as [H1 H2].
        split; by eapply cancelled_later.
      * apply elem_of_cons in Hin as [?|Hin]; [congruence|].
        destruct (remove_entry_other k0 k (nodes w this) Hne) as (Hv & _ & Hs).
        apply (Hrest k); [done| |]; rewrite nodes_removeValue_world.
        -- unfold JsMap.has in *. by rewrite Hv.
        -- by rewrite Hs.
    + unfold ret at 1. intros E. destruct (IH _ _ E) as [Hsub Hrest].
      split; [done|]. intros k u1 u2 Hin Hhas Hrec.
      apply elem_of_cons in Hin as [->|Hin]; [|by apply (Hrest k)].
      unfold JsMap.has in Hhas. by rewrite E0 in Hhas.
Qed.

(** [unmount] gives no MotionValue a subscription, and it cancels what the
    node has on record for each bound key. *)
Lemma unmount_subscriptions this w w' :
  unmount this w = Ok (tt, w') ->
  no_new_subscription w w'
  /\ forall k u1 u2,
       JsMap.has k (values (nodes w this)) = true ->
       JsMap.get k (valueSubscriptions (nodes w this)) = Some (u1, u2) ->
       cancelled u1 w' /\ cancelled u2 w'.
Proof.
  unfold unmount, forEachValue. unfold bind at 1. unfold bind at 1. unfold gets at 1.
  destruct (forM _ _ w) as [[[] w1]|e] eqn:E; [|done].
  unfold bind, cancelSync_update, cancelSync_render, modify. intros [= <-].
  destruct (unmount_loop_cancels _ _ _ _ E) as [[H1 H2] Hrest].
  split; [split; [exact H1|exact H2]|].
  intros k u1 u2 Hhas Hrec.
  apply JsMapFacts.has_true in Hhas as Hv. destruct Hv as [v Hv].
  destruct (Hrest k u1 u2) as [Hc1 Hc2];
    [apply list_elem_of_In; by eapply JsMapFacts.get_in_keys|done|done|].
  split; [destruct u1|destruct u2]; done.
Qed.

(** ** When a binding is subscribed *)

Lemma cleared_world_no_new_subscription this key w :
  no_new_subscription w (cleared_world this key w).
Proof.
  unfold cleared_world. destruct (JsMap.has key (values (nodes w this))).
  - apply removeValue_world_no_new_subscription.
  - apply no_new_subscription_refl.
Qed.

Lemma addValue_world_no_new_subscription this key value w :
  element (nodes w this) = None ->
  no_new_subscription w (addValue_world this key value w).
Proof.
  intros Hel. rewrite addValue_world_unfold. cbv zeta.
  rewrite bool_decide_eq_false_2 by (rewrite Hel; by intros [? ?]).
  destruct (cleared_world_no_new_subscription this key w) as [H1 H2].
  split; [exact H1|exact H2].
Qed.

(** C4 (as amended): [addValue] snapshots the value's current reading into
    [latest] at once, and it subscribes at once exactly when the node holds
    a host instance, which it does from its first mount on, an unmount
    included: a change of the value then reaches [latest].  When the node
    holds none, no MotionValue gains a subscription in [addValue], a change
    of a value that does not listen for the key yet leaves the snapshot
    entry as it is, and the subscription is made by the next mount.  The
    node is taken to record no subscription for [key] while [key] is
    unbound; [records_reachable] shows that this is so in every state
    reached from the initial world. *)
Theorem addValue_subscribes_when_instance_held
    (w : World) (this : NodeId) (key : string) (value : ValId)
    (Hrecords : JsMap.has key (values (nodes w this)) = false ->
                JsMap.get key (valueSubscriptions (nodes w this)) = None) :
  exists w',
    addValue this key value w = Ok (tt, w')
    /\ latest (nodes w' this) !! key = Some (MotionValue.current (cells w value))
    /\ subscribed w' this key value = bool_decide (is_Some (element (nodes w this)))
    /\ (is_Some (element (nodes w this)) ->
        forall x, exists w'',
          value_set value x w' = Ok (tt, w'')
          /\ latest (nodes w'' this) !! key = Some x)
    /\ (element (nodes w this) = None ->
        no_new_subscription w w'
        /\ (listens w this key value = false ->
            listens w' this key value = false
            /\ forall x, exists w'',
                 value_set value x w' = Ok (tt, w'')
                 /\ latest (nodes w'' this) !! key
                    = Some (MotionValue.current (cells w value)))
        /\ forall e, exists w'',
             mount this (Some e) w' = Ok (tt, w'') /\ subscribed w'' this key value = true).
Proof.
  exists (addValue_world this key value w). split; [apply addValue_eq|].
  destruct (addValue_world_node this key value w) as (Hv & Hl & He & Hc).
  split; [exact Hl|]. split; [|split].
  - case_bool_decide as Hel.
    + by apply addValue_world_subscribed.
    + apply addValue_world_deferred; [|done].
      destruct (element (nodes w this)); [|done]. destruct Hel. eauto.
  - intros Hel x.
    destruct (value_set_spec value x (addValue_world this key value w))
      as (w'' & E & _ & _ & Hl2 & _).
    exists w''. split; [exact E|]. rewrite Hl2.
    by rewrite (subscribed_listens _ _ _ _ (addValue_world_subscribed this key value w Hel)).
  - intros Hel. split; [by apply addValue_world_no_new_subscription|]. split.
    + intros Hno.
      pose proof (listens_addValue_world_deferred this key value w Hel Hno) as Hquiet.
      split; [exact Hquiet|]. intros x.
      destruct (value_set_spec value x (addValue_world this key value w))
        as (w'' & E & _ & _ & Hl2 & _).
      exists w''. split; [exact E|]. by rewrite Hl2, Hquiet.
    + intros e.
      destruct (mount_spec this e (addValue_world this key value w))
        as (w'' & E & _ & _ & _ & _ & Hs).
      exists w''. split; [exact E|]. by apply Hs.
Qed.

Lemma addValue_subscribes_when_instance_held_witness :
  exists w',
    addValue 0 "x" 0 (world_after mounted_then_unmounted) = Ok (tt, w')
    /\ latest (nodes w' 0) !! "x" = Some (VNum 1)
    /\ subscribed w' 0 "x" 0 = true.
Proof.
  destruct (addValue_subscribes_when_instance_held
              (world_after mounted_then_unmounted) 0 "x" 0) as (w' & E & Hl & Hs & _).
  - vm_compute. reflexivity.
  - exists w'. split; [exact E|]. split; [exact Hl|]. exact Hs.
Defined.

(** C4 as stated fails: after a mount and an unmount the node is Unmounted
    in the spec's sense, yet [addValue] subscribes at once, and a change of
    the value reaches [latest] with no mount in between. *)
Lemma addValue_after_unmount_subscribes :
  Spec.lifecycle 0 mounted_then_unmounted = Spec.Unmounted
  /\ exists w' w'',
       addValue 0 "x" 0 (world_after mounted_then_unmounted) = Ok (tt, w')
       /\ subscribed w' 0 "x" 0 = true
       /\ value_set 0 (VNum 5) w' = Ok (tt, w'')
       /\ latest (nodes w'' 0) !! "x" = Some (VNum 5).
Proof.
  split; [reflexivity|]. eexists _, _.
  split; [vm_compute; reflexivity|]. split; [vm_compute; reflexivity|].
  split; vm_compute; reflexivity.
Qed.

(** C6 (as amended): [mount] without an instance throws a
    ConfigurationError and does nothing else; [mount] with an instance
    stores it and subscribes every value bound at that moment, so that a
    change of such a value then reaches [latest].  For a binding added
    while the node holds no instance, which is before its first mount, to
    a value that does not listen for the key yet: [addValue] gives no
    MotionValue a subscription, a change of the value does not reach
    [latest] until the mount has happened, and does after it.  For a
    binding added while the node holds an instance, an unmounted node
    included, a change reaches [latest] with no mount in between. *)
Theorem mount_requires_instance_and_subscribes (w : World) (this : NodeId) :
  (exists message, mount this None w = Throw (ConfigurationError message))
  /\ (forall e, exists w',
        mount this (Some e) w = Ok (tt, w')
        /\ getInstance this w' = Ok (Some e, w')
        /\ forall k v, JsMap.get k (values (nodes w this)) = Some v ->
             subscribed w' this k v = true
             /\ forall x, exists w'',
                  value_set v x w' = Ok (tt, w'')
                  /\ latest (nodes w'' this) !! k = Some x)
  /\ (forall key value x e,
        element (nodes w this) = None ->
        listens w this key value = false ->
        exists w1,
          addValue this key value w = Ok (tt, w1)
          /\ no_new_subscription w w1
          /\ (exists w2,
                value_set value x w1 = Ok (tt, w2)
                /\ latest (nodes w2 this) !! key
                   = Some (MotionValue.current (cells w value)))
          /\ exists w3 w4,
               mount this (Some e) w1 = Ok (tt, w3)
               /\ value_set value x w3 = Ok (tt, w4)
               /\ latest (nodes w4 this) !! key = Some x)
  /\ (forall key value x,
        is_Some (element (nodes w this)) ->
        exists w1 w2,
          addValue this key value w = Ok (tt, w1)
          /\ value_set value x w1 = Ok (tt, w2)
          /\ latest (nodes w2 this) !! key = Some x).
Proof.
  assert (Hmount : forall w0 e, exists w',
        mount this (Some e) w0 = Ok (tt, w')
        /\ getInstance this w' = Ok (Some e, w')
        /\ forall k v, JsMap.get k (values (nodes w0 this)) = Some v ->
             subscribed w' this k v = true
             /\ forall x, exists w'',
                  value_set v x w' = Ok (tt, w'')
                  /\ latest (nodes w'' this) !! k = Some x).
  { intros w0 e. destruct (mount_spec this e w0) as (w' & E & He & _ & _ & _ & Hs).
    exists w'. split; [exact E|]. split; [unfold getInstance, gets; by rewrite He|].
    intros k v Hk. split; [by apply Hs|]. intros x.
    destruct (value_set_spec v x w') as (w'' & E' & _ & _ & Hl & _).
    exists w''. split; [exact E'|]. rewrite Hl.
    by rewrite (subscribed_listens _ _ _ _ (Hs k v Hk)). }
  split; [by eexists|]. split; [apply Hmount|]. split.
  - intros key value x e Hel Hno.
    exists (addValue_world this key value w). split; [apply addValue_eq|].
    destruct (addValue_world_node this key value w) as (Hv & Hl & He & Hc).
    split; [by apply addValue_world_no_new_subscription|]. split.
    + destruct (value_set_spec value x (addValue_world this key value w))
        as (w2 & E2 & _ & _ & Hl2 & _).
      exists w2. split; [exact E2|]. rewrite Hl2.
      by rewrite listens_addValue_world_deferred.
    + destruct (Hmount (addValue_world this key value w) e) as (w3 & E3 & _ & Hs).
      destruct (Hs key value Hv) as (_ & Hx). destruct (Hx x) as (w4 & E4 & Hl4).
      by exists w3, w4.
  - intros key value x Hel.
    destruct (value_set_spec value x (addValue_world this key value w))
      as (w2 & E2 & _ & _ & Hl2 & _).
    exists (addValue_world this key value w), w2.
    split; [apply addValue_eq|]. split; [exact E2|]. rewrite Hl2.
    by rewrite (subscribed_listens _ _ _ _ (addValue_world_subscribed this key value w Hel)).
Qed.

Lemma mount_requires_instance_and_subscribes_witness :
  exists w1,
    addValue 0 "x" 0 (world_after bound_before_first_mount) = Ok (tt, w1)
    /\ no_new_subscription (world_after bound_before_first_mount) w1
    /\ (exists w2,
          value_set 0 (VNum 2) w1 = Ok (tt, w2)
          /\ latest (nodes w2 0) !! "x"
             = Some (MotionValue.current (cells (world_after bound_before_first_mount) 0)))
    /\ exists w3 w4,
         mount 0 (Some 7) w1 = Ok (tt, w3)
         /\ value_set 0 (VNum 2) w3 = Ok (tt, w4)
         /\ latest (nodes w4 0) !! "x" = Some (VNum 2).
Proof.
  apply (proj1 (proj2 (proj2 (mount_requires_instance_and_subscribes
                                (world_after bound_before_first_mount) 0)))).
  - vm_compute. reflexivity.
  - vm_compute. reflexivity.
Defined.

(** C6 as stated fails: a node that was mounted and unmounted is Unmounted
    in the spec's sense; a binding added then has had no mount since, yet a
    change of its value updates [latest], the node still being Unmounted. *)
Lemma change_heard_with_no_mount_since_binding :
  Spec.lifecycle 0 mounted_then_unmounted = Spec.Unmounted
  /\ JsMap.has "x" (values (nodes (world_after mounted_then_unmounted) 0)) = false
  /\ Spec.lifecycle 0 (bound_after_unmount ++ [SetValue 0 (VNum 5)]) = Spec.Unmounted
  /\ latest (nodes (world_after bound_after_unmount) 0) !! "x" = Some (VNum 1)
  /\ exists w,
       value_set 0 (VNum 5) (world_after bound_after_unmount) = Ok (tt, w)
       /\ latest (nodes w 0) !! "x" = Some (VNum 5).
Proof.
  split; [reflexivity|]. split; [vm_compute; reflexivity|].
  split; [reflexivity|]. split; [vm_compute; reflexivity|].
  eexists. split; vm_compute; reflexivity.
Qed.

(** ** Replacing a value *)

Lemma accounted_spec w this key v :
  accounted w this key v = true <->
  forall h, (h, OnChange this key) ∈ listeners w v ->
    JsMap.has key (values (nodes w this)) = true
    /\ exists u2, JsMap.get key (valueSubscriptions (nodes w this))
                  = Some (UnsubscribeOnChange v h, u2).
Proof.
  unfold accounted. fold (listeners w v). rewrite forallb_forall. split.
  - intros Hall h Hin. apply list_elem_of_In in Hin. specialize (Hall _ Hin).
    simpl in Hall. rewrite bool_decide_eq_true_2 in Hall by done.
    apply andb_true_iff in Hall as [Hhas Hrec]. split; [done|].
    destruct (JsMap.get key (valueSubscriptions (nodes w this))) as [[u u2]|]; [|done].
    apply bool_decide_eq_true in Hrec. subst u. by exists u2.
  - intros Hall [h cb] Hin. simpl. case_bool_decide as Hcb; [|done]. subst cb.
    apply list_elem_of_In in Hin. destruct (Hall h Hin) as [Hhas [u2 Hrec]].
    rewrite Hhas, Hrec. simpl. by apply bool_decide_eq_true.
Qed.

(** Once the old binding of [key] is removed, an accounted value no longer
    listens for it. *)
Lemma cleared_world_silences w this key v :
  accounted w this key v = true ->
  listens (cleared_world this key w) this key v = false.
Proof.
  intros Hacc. rewrite accounted_spec in Hacc. apply listens_false. intros h Hin.
  assert (Hold : (h, OnChange this key) ∈ listeners w v)
    by (by eapply listeners_cleared_world).
  destruct (Hacc h Hold) as [Hhas [u2 Hrec]].
  unfold cleared_world in Hin. rewrite Hhas in Hin.
  rewrite listeners_removeValue_world in Hin.
  unfold unsubscribe_world in Hin. rewrite Hrec in Hin.
  rewrite !listeners_call_world, decide_True in Hin by done.
  destruct u2 as [v2 h2|v2 h2]; [case_decide|];
    rewrite ?elem_of_drop in Hin; simpl in Hin; tauto.
Qed.

Lemma addValue_world_accounted w this key v :
  accounted w this key v = true ->
  accounted (addValue_world this key v w) this key v = true.
Proof.
  intros Hacc. pose proof (cleared_world_silences w this key v Hacc) as Hquiet.
  rewrite listens_false in Hquiet.
  apply accounted_spec. intros h Hin.
  destruct (addValue_world_node this key v w) as (Hv & _).
  split; [unfold JsMap.has; by rewrite Hv|].
  rewrite addValue_world_unfold in Hin |- *. cbv zeta in Hin |- *.
  case_bool_decide.
  - rewrite listeners_subscribe_world, decide_True in Hin by done.
    apply elem_of_app in Hin as [Hin|Hin]; [by destruct (Hquiet h)|].
    apply list_elem_of_singleton in Hin. inversion Hin; subst h.
    rewrite nodes_subscribe_world. cbn [valueSubscriptions set_valueSubscriptions].
    rewrite JsMapFacts.get_set_eq. eauto.
  - by destruct (Hquiet h).
Qed.

Lemma addValue_world_after_removal this key value w :
  JsMap.has key (values (nodes w this)) = true ->
  addValue_world this key value w
  = addValue_world this key value (removeValue_world this key w).
Proof.
  intros Hhas. rewrite !addValue_world_unfold. cbv zeta.
  assert (cleared_world this key w = removeValue_world this key w) as ->
    by (unfold cleared_world; by rewrite Hhas).
  assert (cleared_world this key (removeValue_world this key w)
          = removeValue_world this key w) as ->.
  { unfold cleared_world. rewrite nodes_removeValue_world.
    unfold JsMap.has. by rewrite (proj1 (remove_entry_gone key (nodes w this))). }
  by rewrite nodes_removeValue_world.
Qed.

(** X19: replacement works where the subscription is the one on record.
    Take two different values and a node on which the first one holds no
    change subscription for the key other than the one the node has on
    record.  After [addValue(k, v1)] and [addValue(k, v2)] the binding to
    [v1] has been removed before [v2] was installed (no binding, no
    snapshot entry, no record, and the subscriptions on record cancelled),
    [v1] does not listen for the key, a change of [v1] leaves [latest[k]]
    as it is, and, when the node holds an instance, a change of [v2] sets
    it. *)
Theorem replaced_value_is_unsubscribed
    (w : World) (this : NodeId) (key : string) (v1 v2 : ValId) (x : Value)
    (Hdistinct : v1 <> v2)
    (Hrecorded : accounted w this key v1 = true) :
  exists w1 wm w2,
    addValue this key v1 w = Ok (tt, w1)
    /\ removeValue this key w1 = Ok (tt, wm)
    /\ gone key (nodes wm this)
    /\ (forall u1 u2,
          JsMap.get key (valueSubscriptions (nodes w1 this)) = Some (u1, u2) ->
          cancelled u1 wm /\ cancelled u2 wm)
    /\ listens wm this key v1 = false
    /\ addValue this key v2 w1 = Ok (tt, w2)
    /\ addValue this key v2 wm = Ok (tt, w2)
    /\ JsMap.get key (values (nodes w2 this)) = Some v2
    /\ listens w2 this key v1 = false
    /\ (exists w3,
          value_set v1 x w2 = Ok (tt, w3)
          /\ latest (nodes w3 this) !! key = latest (nodes w2 this) !! key)
    /\ (is_Some (element (nodes w this)) ->
        exists w3,
          value_set v2 x w2 = Ok (tt, w3)
          /\ latest (nodes w3 this) !! key = Some x).
Proof.
  set (w1 := addValue_world this key v1 w).
  set (wm := removeValue_world this key w1).
  set (w2 := addValue_world this key v2 w1).
  destruct (addValue_world_node this key v1 w) as (Hv1 & _ & He1 & _).
  fold w1 in Hv1, He1.
  assert (Hhas1 : JsMap.has key (values (nodes w1 this)) = true)
    by (unfold JsMap.has; by rewrite Hv1).
  assert (Hacc1 : accounted w1 this key v1 = true) by by apply addValue_world_accounted.
  assert (Hcleared : cleared_world this key w1 = wm)
    by (unfold cleared_world; by rewrite Hhas1).
  assert (Hquiet : listens wm this key v1 = false)
    by (rewrite <- Hcleared; by apply cleared_world_silences).
  assert (Hquiet2 : listens w2 this key v1 = false).
  { apply listens_false. intros h Hin. unfold w2 in Hin.
    rewrite listeners_addValue_world_other, Hcleared in Hin by done.
    rewrite listens_false in Hquiet. by destruct (Hquiet h). }
  destruct (addValue_world_node this key v2 w1) as (Hv2 & _ & He2 & _).
  fold w2 in Hv2, He2.
  exists w1, wm, w2.
  split; [apply addValue_eq|]. split; [apply removeValue_eq|].
  split; [unfold wm; rewrite nodes_removeValue_world; apply remove_entry_gone|].
  split; [intros u1 u2 Hrec; by apply removeValue_world_cancels|].
  split; [exact Hquiet|]. split; [apply addValue_eq|].
  split; [rewrite addValue_eq; unfold w2, wm; by rewrite <- addValue_world_after_removal|].
  split; [exact Hv2|]. split; [exact Hquiet2|]. split.
  - destruct (value_set_spec v1 x w2) as (w3 & E3 & _ & _ & Hl3 & _).
    exists w3. split; [exact E3|]. by rewrite Hl3, Hquiet2.
  - intros Hel. destruct (value_set_spec v2 x w2) as (w3 & E3 & _ & _ & Hl3 & _).
    exists w3. split; [exact E3|]. rewrite Hl3.
    rewrite (subscribed_listens w2 this key v2); [done|].
    apply addValue_world_subscribed. by rewrite He1.
Qed.

Lemma replaced_value_is_unsubscribed_witness :
  exists w2 w3,
    run [AddValue 0 "x" 0; AddValue 0 "x" 1] (world_after mounted_with_two_values)
      = Ok (tt, w2)
    /\ value_set 0 (VNum 9) w2 = Ok (tt, w3)
    /\ latest (nodes w3 0) !! "x" = latest (nodes w2 0) !! "x".
Proof.
  destruct (replaced_value_is_unsubscribed
              (world_after mounted_with_two_values) 0 "x" 0 1 (VNum 9))
    as (w1 & wm & w2 & E1 & _ & _ & _ & _ & E2 & _ & _ & _ & (w3 & E3 & Hl) & _).
  - discriminate.
  - vm_compute. reflexivity.
  - exists w2, w3. split; [|split; [exact E3|exact Hl]].
    unfold run. cbn [forM step]. unfold bind at 1. rewrite E1.
    unfold bind at 1. rewrite E2. reflexivity.
Defined.

(** C5 fails on the code: [addValue(k, v2)] does call the unsubscribe
    function on record for [k], but a value bound after an unmount is
    subscribed at once and again by the next mount, which overwrites the
    record and leaves the first subscription with nobody to cancel it.
    After [addValue(k, v1)] and [addValue(k, v2)] the key is bound to [v2],
    [v1] still listens for it, and a change of [v1] writes [latest[k]]. *)
Theorem orphaned_subscription_still_heard :
  exists w w',
    run remounted_then_replaced initial = Ok (tt, w)
    /\ JsMap.get "x" (values (nodes w 0)) = Some 1
    /\ latest (nodes w 0) !! "x" = Some (VNum 2)
    /\ listens w 0 "x" 0 = true
    /\ value_set 0 (VNum 9) w = Ok (tt, w')
    /\ JsMap.get "x" (values (nodes w' 0)) = Some 1
    /\ latest (nodes w' 0) !! "x" = Some (VNum 9).
Proof.
  eexists _, _. split; [vm_compute; reflexivity|].
  split; [vm_compute; reflexivity|]. split; [vm_compute; reflexivity|].
  split; [vm_compute; reflexivity|]. split; [vm_compute; reflexivity|].
  split; vm_compute; reflexivity.
Qed.

(** ** Unmounting and the subscriptions on record *)

(** C2 (as amended): [unmount] never throws, in whatever state it is
    called; it removes every value binding of the node, with its snapshot
    entry and the subscription on record for it: the record goes, and the
    MotionValue no longer holds the change and render-request subscriptions
    the record was made for, so that a value whose subscriptions for the
    key are all on record no longer listens.  No MotionValue gains a
    subscription, and the entries of unbound keys are left alone.  The
    node's state and the MotionValues are unchanged when no value is bound,
    which is the case right after an unmount. *)
Theorem unmount_removes_every_binding (w : World) (this : NodeId) :
  exists w',
    unmount this w = Ok (tt, w')
    /\ values (nodes w' this) = []
    /\ (forall k, JsMap.has k (values (nodes w this)) = true ->
          latest (nodes w' this) !! k = None
          /\ JsMap.get k (valueSubscriptions (nodes w' this)) = None)
    /\ (forall k u1 u2,
          JsMap.has k (values (nodes w this)) = true ->
          JsMap.get k (valueSubscriptions (nodes w this)) = Some (u1, u2) ->
          cancelled u1 w' /\ cancelled u2 w')
    /\ (forall k v, accounted w this k v = true -> listens w' this k v = false)
    /\ no_new_subscription w w'
    /\ (forall k, JsMap.has k (values (nodes w this)) = false ->
          latest (nodes w' this) !! k = latest (nodes w this) !! k
          /\ JsMap.get k (valueSubscriptions (nodes w' this))
             = JsMap.get k (valueSubscriptions (nodes w this)))
    /\ (values (nodes w this) = [] -> nodes w' this = nodes w this /\ cells w' = cells w)
    /\ exists w'',
         unmount this w' = Ok (tt, w'')
         /\ nodes w'' this = nodes w' this /\ cells w'' = cells w'.
Proof.
  assert (Hidle : forall w0 w1,
            values (nodes w0 this) = [] -> unmount this w0 = Ok (tt, w1) ->
            cells w1 = cells w0).
  { intros w0 w1 Hnil. unfold unmount, forEachValue. unfold bind at 1.
    unfold bind at 1. unfold gets at 1. rewrite Hnil. by intros [= <-]. }
  destruct (unmount_node this w) as (w' & E & Hn & _).
  destruct (unmount_subscriptions this w w' E) as [Hsub Hcancel].
  exists w'. split; [exact E|]. rewrite Hn.
  assert (Hnil : values (strip (JsMap.keys (values (nodes w this))) (nodes w this)) = [])
    by apply strip_values_nil.
  split; [exact Hnil|]. split; [|split; [exact Hcancel|split; [|split; [exact Hsub|]]]].
  - intros k Hk. apply JsMapFacts.has_true in Hk as Hk'. destruct Hk' as [v Hv].
    destruct (strip_bound (JsMap.keys (values (nodes w this))) (nodes w this) k)
      as (_ & Hl & Hs); [by eapply JsMapFacts.get_in_keys|done|done].
  - intros k v Hacc. rewrite accounted_spec in Hacc. apply listens_false.
    intros h Hin. destruct Hsub as [Hsub _].
    destruct (Hacc h (Hsub _ _ Hin)) as [Hhas [u2 Hrec]].
    destruct (Hcancel k _ _ Hhas Hrec) as [Hc _]. by apply (Hc (OnChange this k)).
  - split; [|split].
    + intros k Hk. apply JsMapFacts.has_false in Hk.
      destruct (strip_unbound (JsMap.keys (values (nodes w this))) (nodes w this) k Hk)
        as (_ & Hl & Hs). done.
    + intros Hv. split; [by rewrite Hv|by apply Hidle].
    + destruct (unmount_node this w') as (w'' & E' & Hn' & _).
      exists w''. split; [exact E'|]. rewrite Hn', Hn, Hnil. split; [reflexivity|].
      apply Hidle; [|exact E']. by rewrite Hn.
Qed.

Lemma unmount_removes_every_binding_witness :
  exists w',
    unmount 0 (world_after mounted_and_subscribed) = Ok (tt, w')
    /\ latest (nodes w' 0) !! "x" = None
    /\ JsMap.get "x" (valueSubscriptions (nodes w' 0)) = None
    /\ listens w' 0 "x" 0 = false.
Proof.
  destruct (unmount_removes_every_binding (world_after mounted_and_subscribed) 0)
    as (w' & E & _ & H & _ & Hl & _).
  exists w'. split; [exact E|].
  destruct (H "x") as [H1 H2]; [vm_compute; reflexivity|].
  split; [exact H1|]. split; [exact H2|]. apply Hl. vm_compute. reflexivity.
Defined.

(** ** The tick *)

Lemma call_process_update_throws n w :
  onUpdate (config (nodes w n)) = None -> call_process (Update n) w = Throw TypeError.
Proof. intros H. unfold call_process, update, bind, gets. by rewrite H. Qed.

(** A process that completes has only added to the log. *)
Lemma call_process_completes p w :
  (forall n, p = Update n -> is_Some (onUpdate (config (nodes w n)))) ->
  exists ev, call_process p w = Ok (tt, with_log ev w).
Proof.
  intros Hset. destruct p as [n|n|]; simpl.
  - destruct (Hset n eq_refl) as [f Hf]. unfold update, bind, gets. rewrite Hf. by eexists.
  - by eexists.
  - by eexists.
Qed.

Lemma call_process_result p w :
  call_process p w = Throw TypeError \/ exists ev, call_process p w = Ok (tt, with_log ev w).
Proof.
  destruct p as [n|n|].
  - destruct (onUpdate (config (nodes w n))) as [f|] eqn:Hf.
    + right. apply call_process_completes. intros n' [= <-]. by rewrite Hf.
    + left. by apply call_process_update_throws.
  - right. by apply call_process_completes.
  - right. by apply call_process_completes.
Qed.

Lemma process_loop_throws this ps : forall w,
  Update this ∈ ps -> onUpdate (config (nodes w this)) = None ->
  forM ps call_process w = Throw TypeError.
Proof.
  induction ps as [|p ps IH]; intros w Hin Hnone; [by apply elem_of_nil in Hin|].
  simpl. unfold bind.
  destruct (call_process_result p w) as [E|[ev E]]; rewrite E; [done|].
  apply elem_of_cons in Hin as [<-|Hin].
  - rewrite call_process_update_throws in E by done. discriminate E.
  - by apply IH.
Qed.

Lemma process_loop_completes ps : forall w,
  (forall n, Update n ∈ ps -> is_Some (onUpdate (config (nodes w n)))) ->
  exists w', forM ps call_process w = Ok (tt, w')
             /\ nodes w' = nodes w /\ clock w' = clock w.
Proof.
  induction ps as [|p ps IH]; intros w Hset; simpl; [by exists w|].
  destruct (call_process_completes p w) as [ev E].
  { intros n ->. apply Hset, elem_of_cons. by left. }
  unfold bind. rewrite E.
  destruct (IH (with_log ev w)) as (w' & E' & Hn & Hc).
  { intros n Hin. apply Hset, elem_of_cons. by right. }
  by exists w'.
Qed.

Lemma tick_throws this w :
  Update this ∈ FrameClock.updateQueue (clock w) ->
  onUpdate (config (nodes w this)) = None ->
  tick w = Throw TypeError.
Proof.
  intros Hin Hnone. unfold tick. unfold bind at 1. unfold gets at 1.
  unfold bind at 1. unfold modify at 1. unfold bind at 1.
  by rewrite (process_loop_throws this).
Qed.

Lemma tick_completes w :
  (forall n, Update n ∈ FrameClock.updateQueue (clock w)
             \/ Update n ∈ FrameClock.renderQueue (clock w) ->
             is_Some (onUpdate (config (nodes w n)))) ->
  exists w', tick w = Ok (tt, w').
Proof.
  intros Hset. unfold tick. unfold bind at 1. unfold gets at 1.
  unfold bind at 1. unfold modify at 1. unfold bind at 1.
  set (w0 := with_clock _ w).
  destruct (process_loop_completes (FrameClock.updateQueue (clock w)) w0)
    as (w1 & E1 & Hn1 & Hc1).
  { intros n Hin. apply Hset. by left. }
  rewrite E1. unfold bind at 1. unfold gets at 1.
  unfold bind at 1. unfold modify at 1.
  set (w2 := with_clock _ w1).
  destruct (process_loop_completes (FrameClock.renderQueue (clock w1)) w2)
    as (w3 & E3 & _).
  { intros n Hin. change (nodes w2) with (nodes w1). rewrite Hn1.
    apply Hset. right. by rewrite Hc1 in Hin. }
  by exists w3.
Qed.

(** C10: the update callback calls [config.onUpdate] without a check.  When
    a change of a subscribed value has scheduled the update and
    [updateConfig] then installs a configuration without [onUpdate], the
    tick throws a TypeError; a tick does not throw when every pending update
    belongs to a node whose [onUpdate] is still set. *)
Theorem pending_update_needs_onUpdate
    (w : World) (this : NodeId) (key : string) (value : ValId) (x : Value)
    (f : UserFn) (c : option VisualElementConfig)
    (Hsubscribed : listens w this key value = true)
    (Hset : onUpdate (config (nodes w this)) = Some f)
    (Hdropped : onUpdate (default {| onUpdate := None |} c) = None) :
  (exists w1 w2,
     value_set value x w = Ok (tt, w1)
     /\ Update this ∈ FrameClock.updateQueue (clock w1)
     /\ updateConfig this c w1 = Ok (tt, w2)
     /\ tick w2 = Throw TypeError)
  /\ (forall w0,
        (forall n, Update n ∈ FrameClock.updateQueue (clock w0)
                   \/ Update n ∈ FrameClock.renderQueue (clock w0) ->
                   is_Some (onUpdate (config (nodes w0 n)))) ->
        exists w', tick w0 = Ok (tt, w')).
Proof.
  split; [|apply tick_completes].
  destruct (value_set_spec value x w) as (w1 & E1 & _ & _ & _ & _ & Hq & _).
  assert (Hin : Update this ∈ FrameClock.updateQueue (clock w1)).
  { apply Hq. right. exists this, key. rewrite Hset. eauto. }
  exists w1. eexists. split; [exact E1|]. split; [exact Hin|].
  split; [reflexivity|].
  apply (tick_throws this); [exact Hin|].
  rewrite nodes_with_node_eq. exact Hdropped.
Qed.

Lemma pending_update_needs_onUpdate_witness :
  exists w1 w2,
    value_set 0 (VNum 2) (world_after subscribed_with_onUpdate) = Ok (tt, w1)
    /\ Update 0 ∈ FrameClock.updateQueue (clock w1)
    /\ updateConfig 0 None w1 = Ok (tt, w2)
    /\ tick w2 = Throw TypeError.
Proof.
  apply (proj1 (pending_update_needs_onUpdate
                  (world_after subscribed_with_onUpdate) 0 "x" 0 (VNum 2) 5 None
                  ltac:(vm_compute; reflexivity) ltac:(vm_compute; reflexivity)
                  ltac:(reflexivity))).
Defined.

(** ** Unmounting with work scheduled *)

Lemma elem_of_dequeue p q p' :
  p' ∈ FrameClock.dequeue p q <-> p' ∈ q /\ p' <> p.
Proof.
  unfold FrameClock.dequeue. rewrite !list_elem_of_In, filter_In.
  rewrite negb_true_iff, bool_decide_eq_false. done.
Qed.

(** What [unmount] does to the clock: the node's pending update goes, and
    every entry of the Render phase that the class ever schedules stays,
    the node's own included. *)
Lemma unmount_clock this w :
  exists w',
    unmount this w = Ok (tt, w')
    /\ (forall p, p ∈ FrameClock.updateQueue (clock w') <->
                  p ∈ FrameClock.updateQueue (clock w) /\ p <> Update this)
    /\ (forall p, p ∈ FrameClock.renderQueue (clock w') <->
                  p ∈ FrameClock.renderQueue (clock w) /\ p <> RenderMethod).
Proof.
  destruct (unmount_node this w) as (w' & E & _ & _ & Hc & _).
  exists w'. split; [exact E|]. rewrite Hc. simpl.
  split; intros p; apply elem_of_dequeue.
Qed.

(** C1 fails on the code for renders: node 0 schedules a render and is
    unmounted before the tick, and the tick still renders it (and its
    sibling, node 1).  [unmount] cancels [this.render], which is never what
    [scheduleRender] scheduled. *)
Theorem scheduled_render_survives_unmount :
  exists w,
    run render_scheduled_then_unmounted initial = Ok (tt, w)
    /\ log w = [Rendered 0 ∅; Rendered 1 ∅].
Proof. eexists. split; vm_compute; reflexivity. Qed.

(** The update half does hold: a change schedules the update and the
    render of both nodes; the unmounted node's update is cancelled and the
    sibling's still runs, while the render of the unmounted node fires as
    above, with the snapshot the unmount has emptied. *)
Lemma scheduled_update_cancelled_by_unmount :
  exists w,
    run update_scheduled_then_unmounted initial = Ok (tt, w)
    /\ log w = [Updated 1 6 {[ "y" := VNum 2 ]};
                Rendered 0 ∅; Rendered 1 {[ "y" := VNum 2 ]}].
Proof. eexists. split; vm_compute; reflexivity. Qed.

(** * Further properties of the registry, the lifecycle and the scheduling *)

(** ** The registry *)

Lemma nodes_bind_world_ne this key value w n :
  n <> this -> nodes (bind_world this key value w) n = nodes w n.
Proof. intros Hn. unfold bind_world. by rewrite !nodes_with_node_ne. Qed.

Lemma nodes_cleared_world this key w :
  nodes (cleared_world this key w) this
  = if JsMap.has key (values (nodes w this)) then remove_entry key (nodes w this)
    else nodes w this.
Proof.
  unfold cleared_world. destruct (JsMap.has key (values (nodes w this))); [|done].
  apply nodes_removeValue_world.
Qed.

Lemma nodes_cleared_world_ne this key w n :
  n <> this -> nodes (cleared_world this key w) n = nodes w n.
Proof.
  intros Hn. unfold cleared_world.
  destruct (JsMap.has key (values (nodes w this))); [|done].
  by apply nodes_removeValue_world_ne.
Qed.

Lemma nodes_addValue_world_ne this key value w n :
  n <> this -> nodes (addValue_world this key value w) n = nodes w n.
Proof.
  intros Hn. rewrite addValue_world_unfold. cbv zeta. case_bool_decide.
  - by rewrite nodes_subscribe_world_ne, nodes_bind_world_ne, nodes_cleared_world_ne.
  - by rewrite nodes_bind_world_ne, nodes_cleared_world_ne.
Qed.

Lemma remove_entry_absent key nd : gone key nd -> remove_entry key nd = nd.
Proof.
  intros (Hv & Hl & Hs). destruct nd as [p e l vs ss r c cu d]. simpl in *.
  unfold remove_entry, set_valueSubscriptions, set_latest, set_values. simpl.
  by rewrite !JsMapFacts.delete_absent, delete_id.
Qed.

Lemma clock_removeValue_world this key w : clock (removeValue_world this key w) = clock w.
Proof.
  unfold removeValue_world, unsubscribe_world.
  destruct (JsMap.get key (valueSubscriptions (nodes w this))) as [[[] []]|]; done.
Qed.

(** X1: [removeValue(key)] never throws and removes exactly [key]: its
    binding, its [latest] entry (also one written by [setStaticValues]) and
    its subscription record go, every other key of the node, every other
    node, the host instance, the clock and every MotionValue's reading stay
    as they were; on a key that has none of the three it changes nothing. *)
Theorem removeValue_removes_key_only (w : World) (this : NodeId) (key : string) :
  exists w',
    removeValue this key w = Ok (tt, w')
    /\ hasValue this key w' = Ok (false, w')
    /\ latest (nodes w' this) !! key = None
    /\ JsMap.get key (valueSubscriptions (nodes w' this)) = None
    /\ (forall k, k <> key ->
          JsMap.get k (values (nodes w' this)) = JsMap.get k (values (nodes w this))
          /\ latest (nodes w' this) !! k = latest (nodes w this) !! k
          /\ JsMap.get k (valueSubscriptions (nodes w' this))
             = JsMap.get k (valueSubscriptions (nodes w this)))
    /\ (forall n, n <> this -> nodes w' n = nodes w n)
    /\ element (nodes w' this) = element (nodes w this)
    /\ clock w' = clock w
    /\ (forall v, MotionValue.current (cells w' v) = MotionValue.current (cells w v))
    /\ (gone key (nodes w this) -> nodes w' this = nodes w this /\ cells w' = cells w).
Proof.
  exists (removeValue_world this key w). split; [apply removeValue_eq|].
  rewrite nodes_removeValue_world.
  destruct (remove_entry_gone key (nodes w this)) as (Hv & Hl & Hs).
  split; [unfold hasValue, gets, JsMap.has; by rewrite nodes_removeValue_world, Hv|].
  split; [exact Hl|]. split; [exact Hs|]. split.
  { intros k Hk. by apply remove_entry_other. }
  split; [intros n Hn; by apply nodes_removeValue_world_ne|].
  split; [done|]. split; [apply clock_removeValue_world|]. split.
  { intros v. unfold removeValue_world.
    change (cells (with_node ?n ?f ?w0)) with (cells w0).
    apply cells_unsubscribe_world. }
  intros Hgone. split; [by apply remove_entry_absent|].
  unfold removeValue_world, unsubscribe_world.
  by rewrite (proj2 (proj2 Hgone)).
Qed.

Lemma removeValue_removes_key_only_witness :
  exists w',
    removeValue 0 "z" (world_after subscribed_with_static) = Ok (tt, w')
    /\ nodes w' 0 = nodes (world_after subscribed_with_static) 0
    /\ cells w' = cells (world_after subscribed_with_static).
Proof.
  destruct (removeValue_removes_key_only (world_after subscribed_with_static) 0 "z")
    as (w' & E & _ & _ & _ & _ & _ & _ & _ & _ & H).
  exists w'. split; [exact E|]. apply H. vm_compute. done.
Defined.

(** X2: binding and looking up round-trip: after [addValue(key, v)],
    [hasValue(key)] is true and [getValue(key)] returns [v], with or without
    a default and without creating a MotionValue; after [removeValue(key)],
    [hasValue(key)] is false and [getValue(key)] returns nothing. *)
Theorem addValue_getValue_removeValue
    (w : World) (this : NodeId) (key : string) (v : ValId) (d : Value) :
  exists w1 w2,
    addValue this key v w = Ok (tt, w1)
    /\ hasValue this key w1 = Ok (true, w1)
    /\ getValue this key d w1 = Ok (Some v, w1)
    /\ removeValue this key w1 = Ok (tt, w2)
    /\ hasValue this key w2 = Ok (false, w2)
    /\ getValue this key VUndefined w2 = Ok (None, w2).
Proof.
  exists (addValue_world this key v w),
         (removeValue_world this key (addValue_world this key v w)).
  destruct (addValue_world_node this key v w) as (Hv & _).
  destruct (remove_entry_gone key (nodes (addValue_world this key v w) this))
    as (Hv2 & _).
  split; [apply addValue_eq|].
  split; [unfold hasValue, gets, JsMap.has; by rewrite Hv|].
  split; [unfold getValue, bind, gets; by rewrite Hv|].
  split; [apply removeValue_eq|].
  split.
  - unfold hasValue, gets, JsMap.has. by rewrite nodes_removeValue_world, Hv2.
  - unfold getValue, bind, gets. by rewrite nodes_removeValue_world, Hv2.
Qed.

(** X3: [addValue(key, v)] touches [key] only: the bindings, [latest]
    entries and subscription records of the node's other keys, and every
    other node, are as before. *)
Theorem addValue_leaves_other_keys
    (w : World) (this : NodeId) (key : string) (v : ValId) :
  exists w',
    addValue this key v w = Ok (tt, w')
    /\ (forall k, k <> key ->
          JsMap.get k (values (nodes w' this)) = JsMap.get k (values (nodes w this))
          /\ latest (nodes w' this) !! k = latest (nodes w this) !! k
          /\ JsMap.get k (valueSubscriptions (nodes w' this))
             = JsMap.get k (valueSubscriptions (nodes w this)))
    /\ (forall n, n <> this -> nodes w' n = nodes w n)
    /\ clock w' = clock w.
Proof.
  exists (addValue_world this key v w). split; [apply addValue_eq|].
  split; [|split; [intros n Hn; by apply nodes_addValue_world_ne|]].
  - intros k Hk.
    assert (Hc : JsMap.get k (values (nodes (cleared_world this key w) this))
                 = JsMap.get k (values (nodes w this))
                 /\ latest (nodes (cleared_world this key w) this) !! k
                    = latest (nodes w this) !! k
                 /\ JsMap.get k (valueSubscriptions (nodes (cleared_world this key w) this))
                    = JsMap.get k (valueSubscriptions (nodes w this))).
    { rewrite nodes_cleared_world.
      destruct (JsMap.has key (values (nodes w this))); [|done].
      apply remove_entry_other. congruence. }
    destruct Hc as (Hv & Hl & Hs).
    rewrite addValue_world_unfold. cbv zeta. case_bool_decide.
    + rewrite nodes_subscribe_world, nodes_bind_world.
      cbn [values latest valueSubscriptions set_valueSubscriptions set_latest set_values].
      rewrite !JsMapFacts.get_set_ne, lookup_insert_ne by congruence. done.
    + rewrite nodes_bind_world.
      cbn [values latest valueSubscriptions set_latest set_values].
      rewrite !JsMapFacts.get_set_ne, lookup_insert_ne by congruence. done.
  - unfold addValue_world, subscribe_world, bind_world, removeValue_world,
      unsubscribe_world. cbv zeta.
    assert (forall u w0, clock (call_world u w0) = clock w0) as Hcall
      by (by intros [] ?).
    repeat case_match; cbn [clock with_node with_cell]; rewrite ?Hcall; done.
Qed.

Lemma removeValue_world_silences w this key v :
  accounted w this key v = true ->
  listens (removeValue_world this key w) this key v = false.
Proof.
  intros Hacc. destruct (JsMap.has key (values (nodes w this))) eqn:Hhas.
  - pose proof (cleared_world_silences w this key v Hacc) as H.
    unfold cleared_world in H. by rewrite Hhas in H.
  - apply listens_false. intros h Hin.
    rewrite listeners_removeValue_world in Hin.
    apply listeners_unsubscribe_world in Hin.
    rewrite accounted_spec in Hacc. destruct (Hacc h Hin) as [Hh _]. congruence.
Qed.

(** X4: [removeValue] cancels the subscription it has on record: when the
    value holds no subscription for the key other than the recorded one,
    a change of the value after [removeValue(key)] does not bring
    [latest[key]] back. *)
Theorem removed_value_is_not_heard
    (w : World) (this : NodeId) (key : string) (v : ValId) (x : Value)
    (Hrecorded : accounted w this key v = true) :
  exists w1 w2,
    removeValue this key w = Ok (tt, w1)
    /\ listens w1 this key v = false
    /\ value_set v x w1 = Ok (tt, w2)
    /\ latest (nodes w2 this) !! key = None
    /\ hasValue this key w2 = Ok (false, w2).
Proof.
  pose proof (removeValue_world_silences w this key v Hrecorded) as Hq.
  destruct (value_set_spec v x (removeValue_world this key w))
    as (w2 & E2 & _ & _ & Hl & _).
  assert (Hvals : keeps (fun w0 => JsMap.get key (values (nodes w0 this)) = None)
                    (value_set v x)).
  { apply frame_value_set. split; intros; try done;
      rewrite nodes_with_node; case_decide; subst; done. }
  destruct (remove_entry_gone key (nodes w this)) as (Hv & Hlat & _).
  exists (removeValue_world this key w), w2.
  split; [apply removeValue_eq|]. split; [exact Hq|]. split; [exact E2|]. split.
  - by rewrite Hl, Hq, nodes_removeValue_world.
  - unfold hasValue, gets, JsMap.has.
    assert (Hpre : JsMap.get key (values (nodes (removeValue_world this key w) this))
                   = None) by (by rewrite nodes_removeValue_world).
    by rewrite (Hvals _ _ _ Hpre E2).
Qed.

Lemma removed_value_is_not_heard_witness :
  exists w1 w2,
    removeValue 0 "x" (world_after subscribed_with_static) = Ok (tt, w1)
    /\ listens w1 0 "x" 0 = false
    /\ value_set 0 (VNum 9) w1 = Ok (tt, w2)
    /\ latest (nodes w2 0) !! "x" = None
    /\ hasValue 0 "x" w2 = Ok (false, w2).
Proof.
  apply (removed_value_is_not_heard (world_after subscribed_with_static) 0 "x" 0 (VNum 9)).
  vm_compute. reflexivity.
Defined.

(** ** Invariants of every reachable state *)

(** X5: in every state reached from the initial world by any sequence of
    calls, a node holds an unsubscribe function only for keys that are
    bound: the key set of [valueSubscriptions] is within that of [values]. *)
Theorem subscriptions_only_for_bound_keys (ops : list Op) (w : World)
    (Hrun : run ops initial = Ok (tt, w)) :
  forall n k,
    is_Some (JsMap.get k (valueSubscriptions (nodes w n))) ->
    JsMap.has k (values (nodes w n)) = true.
Proof.
  intros n k Hrec.
  assert (Hw : records_within w).
  { apply (keeps_forM records_within ops step (fun op _ => records_step op) initial tt w);
      [|exact Hrun]. by intros m k' _. }
  destruct (JsMap.has k (values (nodes w n))) eqn:Hhas; [done|].
  rewrite (Hw n k Hhas) in Hrec. by destruct Hrec.
Qed.

Lemma subscriptions_only_for_bound_keys_witness :
  JsMap.has "x" (values (nodes (world_after mounted_and_subscribed) 0)) = true.
Proof.
  apply (subscriptions_only_for_bound_keys mounted_and_subscribed
           (world_after mounted_and_subscribed)).
  - vm_compute. reflexivity.
  - vm_compute. eauto.
Defined.

#[export] Instance stable_alias_in_step : Stable alias_in_step.
Proof.
  split; [split|..]; intros; try done; intros m;
    rewrite nodes_with_node; case_decide; subst; simpl;
    match goal with H : alias_in_step ?w |- _ => apply (H _) end.
Qed.

(** X6: [current] is an alias of [element]: in every state reached from the
    initial world the two fields of every node are equal. *)
Theorem current_is_element (ops : list Op) (w : World)
    (Hrun : run ops initial = Ok (tt, w)) :
  forall n, current (nodes w n) = element (nodes w n).
Proof.
  assert (Hstep : forall op, keeps alias_in_step (step op)).
  { intros op. apply frame_step; [apply _| |].
    - intros p r _ w0 a w' H E. inversion E; subst. intros m. simpl.
      destruct (decide (nextNode w0 = m)) as [<-|Hm].
      + by rewrite fn_lookup_insert.
      + rewrite fn_lookup_insert_ne by done. apply H.
    - intros this e w0 _ H m. rewrite nodes_with_node. case_decide; [done|apply H]. }
  apply (keeps_forM alias_in_step ops step (fun op _ => Hstep op) initial tt w);
    [|exact Hrun].
  by intros m.
Qed.

Lemma current_is_element_witness :
  current (nodes (world_after mounted_and_subscribed) 0)
  = element (nodes (world_after mounted_and_subscribed) 0).
Proof.
  apply (current_is_element mounted_and_subscribed). vm_compute. reflexivity.
Defined.

Lemma construct_keeps_field {T} (F : VisualElement -> T) n c parent r :
  keeps (fun w => F (nodes w n) = c /\ n < nextNode w) (construct parent r).
Proof.
  intros w a w' [Hd Hlt] E. inversion E; subst; simpl.
  rewrite fn_lookup_insert_ne by lia. split; [done|lia].
Qed.

Lemma step_keeps_field {T} (F : VisualElement -> T) n c op :
  (forall f nd, F (set_latest f nd) = F nd) ->
  (forall f nd, F (set_values f nd) = F nd) ->
  (forall f nd, F (set_valueSubscriptions f nd) = F nd) ->
  (forall x nd, F (set_config x nd) = F nd) ->
  (forall e nd, F (set_element e nd) = F nd) ->
  keeps (fun w => F (nodes w n) = c /\ n < nextNode w) (step op).
Proof.
  intros H1 H2 H3 H4 H5. apply frame_step.
  - apply stable_and; [by apply stable_field|apply _].
  - intros. apply construct_keeps_field.
  - intros this e w _ [Hd Hlt]. split; [|done].
    rewrite nodes_with_node. case_decide; subst; [by rewrite H5|done].
Qed.

(** X7: the parent and the external ref of a node are fixed by the
    constructor: no sequence of calls changes them on a constructed node. *)
Theorem parent_and_ref_fixed_at_construction
    (ops : list Op) (n : NodeId) (w w' : World)
    (Hconstructed : n < nextNode w)
    (Hrun : run ops w = Ok (tt, w')) :
  parent (nodes w' n) = parent (nodes w n)
  /\ externalRef (nodes w' n) = externalRef (nodes w n).
Proof.
  split.
  - assert (H : keeps (fun w0 => parent (nodes w0 n) = parent (nodes w n)
                                 /\ n < nextNode w0) (run ops)).
    { apply keeps_forM. intros op _. by apply (step_keeps_field parent). }
    by destruct (H w tt w' (conj eq_refl Hconstructed) Hrun).
  - assert (H : keeps (fun w0 => externalRef (nodes w0 n) = externalRef (nodes w n)
                                 /\ n < nextNode w0) (run ops)).
    { apply keeps_forM. intros op _. by apply (step_keeps_field externalRef). }
    by destruct (H w tt w' (conj eq_refl Hconstructed) Hrun).
Qed.

Lemma parent_and_ref_fixed_at_construction_witness :
  exists w',
    run child_lifecycle
      (world_after [New None None; New (Some 0) (Some (RefCallback 4))]) = Ok (tt, w')
    /\ parent (nodes w' 1) = Some 0
    /\ externalRef (nodes w' 1) = Some (RefCallback 4).
Proof.
  eexists. split; [vm_compute; reflexivity|].
  apply (parent_and_ref_fixed_at_construction child_lifecycle 1
           (world_after [New None None; New (Some 0) (Some (RefCallback 4))])).
  - vm_compute. lia.
  - vm_compute. reflexivity.
Defined.

(** ** The lifecycle *)

(** What [mount] leaves alone, and what it does to the subscriptions the
    MotionValues hold: it takes none away and gives each bound value one
    more for its key. *)
Lemma mount_loop_listeners this ks : forall w,
  exists w',
    forM ks (fun key =>
      do live <- gets (fun w => JsMap.get key (values (nodes w this)));
      match live with
      | Some value => subscribeToValue this key value
      | None => ret tt
      end) w = Ok (tt, w')
    /\ values (nodes w' this) = values (nodes w this)
    /\ log w' = log w /\ refObjects w' = refObjects w
    /\ forall v, exists extra,
         listeners w' v = listeners w v ++ extra
         /\ (forall k, In k ks -> JsMap.get k (values (nodes w this)) = Some v ->
               exists h, (h, OnChange this k) ∈ extra)
         /\ (forall e, e ∈ extra -> exists k, e.2 = OnChange this k).
Proof.
  induction ks as [|k0 ks IH]; intros w; simpl.
  - exists w. repeat split; try done. intros v. exists [].
    rewrite app_nil_r. repeat split; [done|]. intros e He. by apply elem_of_nil in He.
  - unfold bind at 1. unfold bind at 1. unfold gets at 1.
    destruct (JsMap.get k0 (values (nodes w this))) as [v0|] eqn:E0.
    + rewrite subscribeToValue_eq.
      destruct (IH (subscribe_world this k0 v0 w)) as (w' & E & Hv & Hl & Hr & Hs).
      rewrite nodes_subscribe_world in Hv, Hs.
      cbn [values set_valueSubscriptions] in Hv, Hs.
      exists w'. split; [exact E|]. split; [done|]. split; [done|]. split; [done|].
      intros v. destruct (Hs v) as (extra & Hex & Hnew & Hown).
      rewrite listeners_subscribe_world in Hex.
      destruct (decide (v0 = v)) as [->|Hne].
      * exists ((MotionValue.nextSubscription (cells w v), OnChange this k0) :: extra).
        split; [by rewrite Hex, <- app_assoc|]. split.
        -- intros k [<-|Hin] Hk.
           ++ eexists. apply elem_of_cons. by left.
           ++ destruct (Hnew k Hin Hk) as [h Hh]. exists h. apply elem_of_cons. by right.
        -- intros e He. apply elem_of_cons in He as [->|He]; [by exists k0|by apply Hown].
      * exists extra. split; [done|]. split; [|done].
        intros k [<-|Hin] Hk; [congruence|by apply Hnew].
    + unfold ret at 1. destruct (IH w) as (w' & E & Hv & Hl & Hr & Hs).
      exists w'. split; [exact E|]. repeat split; try done.
      intros v. destruct (Hs v) as (extra & Hex & Hnew & Hown).
      exists extra. split; [done|]. split; [|done].
      intros k [<-|Hin] Hk; [congruence|by apply Hnew].
Qed.

Lemma mount_listeners this e w :
  exists w',
    mount this (Some e) w = Ok (tt, w')
    /\ log w' = log w /\ refObjects w' = refObjects w
    /\ forall v, exists extra,
         listeners w' v = listeners w v ++ extra
         /\ (forall k, JsMap.get k (values (nodes w this)) = Some v ->
               exists h, (h, OnChange this k) ∈ extra)
         /\ (forall e, e ∈ extra -> exists k, e.2 = OnChange this k).
Proof.
  unfold mount, invariant, forEachValue. simpl.
  unfold bind at 1. unfold ret at 1. unfold bind at 1. unfold modify at 1.
  unfold bind at 1. unfold gets at 1.
  set (w0 := with_node this (set_element (Some e)) w).
  destruct (mount_loop_listeners this (JsMap.keys (values (nodes w0 this))) w0)
    as (w' & E & Hv & Hl & Hr & Hs).
  exists w'. split; [exact E|]. split; [done|]. split; [done|].
  assert (Hw0 : nodes w0 this = set_element (Some e) (nodes w this))
    by apply nodes_with_node_eq.
  intros v. destruct (Hs v) as (extra & Hex & Hnew & Hown).
  exists extra. split; [done|]. split; [|done].
  intros k Hk. apply Hnew; rewrite Hw0; simpl; [|done].
  by eapply JsMapFacts.get_in_keys.
Qed.

(** X8: [mount] cancels nothing: every subscription a MotionValue held
    before the mount is still there after it, each bound value has got one
    more for its key, and only this node's callbacks were added.  So on a
    node whose binding is already subscribed, a mount leaves the value with
    two subscriptions for the same key. *)
Theorem mount_adds_and_never_cancels (w : World) (this : NodeId) (e : Instance) :
  exists w',
    mount this (Some e) w = Ok (tt, w')
    /\ (forall v, exists extra,
          listeners w' v = listeners w v ++ extra
          /\ (forall k, JsMap.get k (values (nodes w this)) = Some v ->
                exists h, (h, OnChange this k) ∈ extra)
          /\ (forall cb, cb ∈ extra -> exists k, cb.2 = OnChange this k))
    /\ (forall k v,
          JsMap.get k (values (nodes w this)) = Some v ->
          listens w this k v = true ->
          exists i j h1 h2,
            i <> j
            /\ listeners w' v !! i = Some (h1, OnChange this k)
            /\ listeners w' v !! j = Some (h2, OnChange this k)).
Proof.
  destruct (mount_listeners this e w) as (w' & E & _ & _ & Hs).
  exists w'. split; [exact E|]. split; [exact Hs|].
  intros k v Hk Hli. destruct (Hs v) as (extra & Hex & Hnew & _).
  apply listens_spec in Hli as [h1 Hold]. destruct (Hnew k Hk) as [h2 Hin].
  apply list_elem_of_lookup in Hold as [i Hi]. apply list_elem_of_lookup in Hin as [j Hj].
  exists i, (length (listeners w v) + j), h1, h2.
  pose proof (lookup_lt_Some _ _ _ Hi) as Hlt.
  split; [lia|]. rewrite Hex. split.
  - by apply lookup_app_l_Some.
  - rewrite lookup_app_r by lia.
    by replace (length (listeners w v) + j - length (listeners w v)) with j by lia.
Qed.

Lemma mount_adds_and_never_cancels_witness :
  exists w' i j h1 h2,
    mount 0 (Some 8) (world_after mounted_and_subscribed) = Ok (tt, w')
    /\ i <> j
    /\ listeners w' 0 !! i = Some (h1, OnChange 0 "x")
    /\ listeners w' 0 !! j = Some (h2, OnChange 0 "x").
Proof.
  destruct (mount_adds_and_never_cancels (world_after mounted_and_subscribed) 0 8)
    as (w' & E & _ & H).
  destruct (H "x" 0) as (i & j & h1 & h2 & Hij & Hi & Hj).
  - vm_compute. reflexivity.
  - vm_compute. reflexivity.
  - by exists w', i, j, h1, h2.
Defined.

(** X9: bindings do not survive an unmount: after [unmount] and a new
    [mount], the node holds the new instance and no value at all, so
    [hasValue] is false for every key, and the snapshot entries of the keys
    that were bound are gone. *)
Theorem remount_starts_without_values (w : World) (this : NodeId) (e : Instance) :
  exists w1 w2,
    unmount this w = Ok (tt, w1)
    /\ mount this (Some e) w1 = Ok (tt, w2)
    /\ getInstance this w2 = Ok (Some e, w2)
    /\ values (nodes w2 this) = []
    /\ (forall k, hasValue this k w2 = Ok (false, w2))
    /\ (forall k, JsMap.has k (values (nodes w this)) = true ->
          latest (nodes w2 this) !! k = None)
    /\ (forall k v, listens w2 this k v = listens w1 this k v).
Proof.
  destruct (unmount_node this w) as (w1 & E1 & Hn1 & _).
  destruct (mount_spec this e w1) as (w2 & E2 & He & Hv & Hl & _).
  destruct (mount_listeners this e w1) as (w2' & E2' & _ & _ & Hs).
  assert (w2' = w2) as -> by congruence.
  assert (Hnil : values (nodes w1 this) = [])
    by (rewrite Hn1; apply strip_values_nil).
  exists w1, w2. split; [exact E1|]. split; [exact E2|].
  split; [unfold getInstance, gets; by rewrite He|].
  split; [by rewrite Hv|]. split; [|split].
  - intros k. unfold hasValue, gets. by rewrite Hv, Hnil.
  - intros k Hk. rewrite Hl, Hn1.
    apply JsMapFacts.has_true in Hk as Hk'. destruct Hk' as [v Hv'].
    destruct (strip_bound (JsMap.keys (values (nodes w this))) (nodes w this) k)
      as (_ & H & _); [by eapply JsMapFacts.get_in_keys|done|done].
  - intros k v. destruct (Hs v) as (extra & Hex & Hnew & Hown).
    assert (extra = []) as ->.
    { unfold mount, invariant, forEachValue in E2. simpl in E2.
      unfold bind at 1, ret at 1, bind at 1, modify at 1, bind at 1, gets at 1 in E2.
      rewrite nodes_with_node_eq in E2. cbn [values set_element] in E2.
      rewrite Hnil in E2. simpl in E2. inversion E2; subst w2.
      assert (Hsame : listeners (with_node this (set_element (Some e)) w1) v
                      = listeners w1 v) by reflexivity.
      rewrite Hsame in Hex. rewrite <- (app_nil_r (listeners w1 v)) in Hex at 1.
      by apply app_inv_head in Hex. }
    unfold listens. fold (listeners w2 v). fold (listeners w1 v).
    by rewrite Hex, app_nil_r.
Qed.





Lemma remount_starts_without_values_witness :
  exists w1 w2,
    unmount 0 (world_after mounted_and_subscribed) = Ok (tt, w1)
    /\ mount 0 (Some 8) w1 = Ok (tt, w2)
    /\ latest (nodes w2 0) !! "x" = None.
Proof.
  destruct (remount_starts_without_values (world_after mounted_and_subscribed) 0 8)
    as (w1 & w2 & E1 & E2 & _ & _ & _ & H & _).
  exists w1, w2. split; [exact E1|]. split; [exact E2|].
  apply H. vm_compute. reflexivity.
Defined.

(** ** Scheduling *)

Lemma call_process_observed p w :
  (forall n, p = Update n -> is_Some (onUpdate (config (nodes w n)))) ->
  exists ev, observed w p = [ev] /\ call_process p w = Ok (tt, with_log ev w).
Proof.
  intros Hset. destruct p as [n|n|]; simpl.
  - destruct (Hset n eq_refl) as [f Hf]. unfold update, bind, gets. rewrite Hf. by eexists.
  - by eexists.
  - by eexists.
Qed.

Lemma process_loop_log ps : forall w,
  (forall n, Update n ∈ ps -> is_Some (onUpdate (config (nodes w n)))) ->
  exists w', forM ps call_process w = Ok (tt, w')
             /\ nodes w' = nodes w /\ cells w' = cells w /\ clock w' = clock w
             /\ log w' = log w ++ flat_map (observed w) ps.
Proof.
  induction ps as [|p ps IH]; intros w Hset; simpl.
  - exists w. by rewrite app_nil_r.
  - destruct (call_process_observed p w) as (ev & Hev & E).
    { intros n ->. apply Hset, elem_of_cons. by left. }
    unfold bind. rewrite E.
    destruct (IH (with_log ev w)) as (w' & E' & Hn & Hc & Hk & Hl).
    { intros n Hin. apply Hset, elem_of_cons. by right. }
    exists w'. split; [exact E'|]. repeat split; try done.
    rewrite Hl, Hev. simpl. rewrite <- app_assoc. reflexivity.
Qed.

(** A tick whose pending updates all have their [onUpdate]: it completes,
    shows the Update phase and then the Render phase, and leaves nothing
    pending. *)
Lemma tick_log w :
  (forall n, Update n ∈ FrameClock.updateQueue (clock w)
             \/ Update n ∈ FrameClock.renderQueue (clock w) ->
             is_Some (onUpdate (config (nodes w n)))) ->
  exists w', tick w = Ok (tt, w')
    /\ nodes w' = nodes w /\ cells w' = cells w /\ clock w' = FrameClock.empty
    /\ log w' = log w ++ flat_map (observed w) (FrameClock.updateQueue (clock w))
                      ++ flat_map (observed w) (FrameClock.renderQueue (clock w)).
Proof.
  intros Hset. unfold tick. unfold bind at 1. unfold gets at 1.
  unfold bind at 1. unfold modify at 1. unfold bind at 1.
  set (w0 := with_clock _ w).
  destruct (process_loop_log (FrameClock.updateQueue (clock w)) w0)
    as (w1 & E1 & Hn1 & Hc1 & Hk1 & Hl1).
  { intros n Hin. apply Hset. by left. }
  rewrite E1. unfold bind at 1. unfold gets at 1.
  unfold bind at 1. unfold modify at 1.
  set (w2 := with_clock _ w1).
  assert (Hrq : FrameClock.renderQueue (clock w1) = FrameClock.renderQueue (clock w))
    by (by rewrite Hk1).
  destruct (process_loop_log (FrameClock.renderQueue (clock w1)) w2)
    as (w3 & E3 & Hn3 & Hc3 & Hk3 & Hl3).
  { intros n Hin. change (nodes w2) with (nodes w1). rewrite Hn1.
    apply Hset. right. by rewrite Hrq in Hin. }
  exists w3. split; [exact E3|].
  split; [by rewrite Hn3; change (nodes w2) with (nodes w1); rewrite Hn1|].
  split; [by rewrite Hc3; change (cells w2) with (cells w1); rewrite Hc1|].
  split.
  - rewrite Hk3. unfold w2, with_clock. cbn [clock]. rewrite Hk1. reflexivity.
  - rewrite Hl3. change (log w2) with (log w1). rewrite Hl1, Hrq.
    assert (Hobs : forall (wa wb : World) ps, nodes wa = nodes wb ->
              flat_map (observed wa) ps = flat_map (observed wb) ps).
    { intros wa wb ps Heq. induction ps as [|p ps IHp]; simpl; [done|].
      rewrite IHp. f_equal. destruct p; simpl; by rewrite ?Heq. }
    rewrite (Hobs w2 w) by (change (nodes w2) with (nodes w1); by rewrite Hn1).
    rewrite (Hobs w0 w) by reflexivity.
    by rewrite <- app_assoc.
Qed.

Lemma NoDup_enqueue p q : NoDup q -> NoDup (FrameClock.enqueue p q).
Proof.
  intros Hq. unfold FrameClock.enqueue. case_bool_decide as Hin; [done|].
  apply list.NoDup_app. split; [done|]. split.
  - intros x Hx Hx'. apply list_elem_of_singleton in Hx'. by subst.
  - apply NoDup_singleton.
Qed.

Lemma log_call_onChange_world cb x w : log (call_onChange_world cb x w) = log w.
Proof. destruct cb as [n k]. unfold call_onChange_world. cbv zeta. by destruct (onUpdate _). Qed.

Lemma NoDup_call_onChange_world cb x w :
  NoDup (FrameClock.updateQueue (clock w)) ->
  NoDup (FrameClock.updateQueue (clock (call_onChange_world cb x w))).
Proof.
  intros Hq. destruct cb as [n k]. unfold call_onChange_world. cbv zeta.
  destruct (onUpdate _); [|done].
  unfold with_clock. cbn [clock FrameClock.schedule FrameClock.updateQueue].
  by apply NoDup_enqueue.
Qed.

Lemma notify_loop_queue x (l : list (SubId * ChangeCallback)) : forall w w',
  forM l (fun e => call_onChange e.2 x) w = Ok (tt, w') ->
  log w' = log w
  /\ (NoDup (FrameClock.updateQueue (clock w)) ->
      NoDup (FrameClock.updateQueue (clock w'))).
Proof.
  induction l as [|[h cb] l IH]; intros w w'; simpl.
  - by intros [= ->].
  - unfold bind at 1. rewrite call_onChange_eq. intros E.
    destruct (IH _ _ E) as [Hl Hq]. split.
    + by rewrite Hl, log_call_onChange_world.
    + intros Hnd. by apply Hq, NoDup_call_onChange_world.
Qed.

Lemma value_set_queue v x w w' :
  value_set v x w = Ok (tt, w') ->
  log w' = log w
  /\ (NoDup (FrameClock.updateQueue (clock w)) ->
      NoDup (FrameClock.updateQueue (clock w'))).
Proof.
  rewrite value_set_unfold.
  destruct (forM _ _ _) as [[[] w1]|e] eqn:E; [|done]. intros [= <-].
  apply notify_loop_queue in E as [Hl Hq].
  destruct (request_world_outside (requesters w1 v) w1) as (_ & _ & Rl & _ & Ru).
  rewrite Rl, Ru. done.
Qed.

Lemma no_update_shown this w q :
  Update this ∉ q -> List.filter (updates_of this) (flat_map (observed w) q) = [].
Proof.
  induction q as [|p q IH]; intros Hnot; simpl; [done|].
  rewrite filter_app, IH by (intros Hin; apply Hnot, elem_of_cons; by right).
  rewrite app_nil_r. destruct p as [n|n|]; simpl; try done.
  destruct (onUpdate (config (nodes w n))); simpl; [|done].
  destruct (Nat.eqb_spec n this) as [->|]; [|done].
  destruct Hnot. apply elem_of_cons. by left.
Qed.

Lemma one_update_shown this f w q :
  NoDup q -> Update this ∈ q -> onUpdate (config (nodes w this)) = Some f ->
  List.filter (updates_of this) (flat_map (observed w) q)
  = [Updated this f (latest (nodes w this))].
Proof.
  induction q as [|p q IH]; intros Hnd Hin Hf; [by apply elem_of_nil in Hin|].
  inversion Hnd as [|? ? Hp Hq]; subst. simpl. rewrite filter_app.
  destruct (decide (p = Update this)) as [->|Hne].
  - rewrite (no_update_shown this w q Hp), app_nil_r. simpl. rewrite Hf. simpl.
    by rewrite Nat.eqb_refl.
  - apply elem_of_cons in Hin as [?|Hin]; [congruence|].
    rewrite (IH Hq Hin Hf).
    assert (List.filter (updates_of this) (observed w p) = []) as ->; [|done].
    destruct p as [n|n|]; simpl; try done.
    destruct (onUpdate (config (nodes w n))); simpl; [|done].
    destruct (Nat.eqb_spec n this) as [->|]; [congruence|done].
Qed.

(** X11: the update callback runs at most once per frame and sees the
    settled snapshot: when two changes of a subscribed value arrive on an
    idle clock, the tick calls the node's [onUpdate] exactly once, with the
    [latest] that holds the second reading, and leaves nothing pending. *)
Theorem onUpdate_once_per_tick
    (w : World) (this : NodeId) (key : string) (v : ValId) (x1 x2 : Value) (f : UserFn)
    (Hidle : clock w = FrameClock.empty)
    (Hsubscribed : listens w this key v = true)
    (Hset : onUpdate (config (nodes w this)) = Some f) :
  exists w1 w2 w3 evs,
    value_set v x1 w = Ok (tt, w1)
    /\ value_set v x2 w1 = Ok (tt, w2)
    /\ tick w2 = Ok (tt, w3)
    /\ log w3 = log w ++ evs
    /\ List.filter (updates_of this) evs = [Updated this f (latest (nodes w2 this))]
    /\ latest (nodes w2 this) !! key = Some x2
    /\ clock w3 = FrameClock.empty.
Proof.
  destruct (value_set_spec v x1 w) as (w1 & E1 & _ & Hli1 & _ & Hc1 & Hq1 & Hr1).
  destruct (value_set_spec v x2 w1) as (w2 & E2 & _ & _ & Hl2 & Hc2 & Hq2 & Hr2).
  destruct (value_set_queue _ _ _ _ E1) as [Hlog1 Hnd1].
  destruct (value_set_queue _ _ _ _ E2) as [Hlog2 Hnd2].
  assert (Hli : listens w1 this key v = true).
  { unfold listens. fold (listeners w1 v). rewrite Hli1. exact Hsubscribed. }
  assert (Hcfg : forall n, config (nodes w2 n) = config (nodes w n))
    by (intros n; by rewrite Hc2, Hc1).
  assert (Hpending : forall p, p ∈ FrameClock.updateQueue (clock w2) ->
            exists n, p = Update n /\ is_Some (onUpdate (config (nodes w2 n)))).
  { intros p Hp. apply Hq2 in Hp as [Hp|(n & k & _ & -> & Hs)].
    - apply Hq1 in Hp as [Hp|(n & k & _ & -> & Hs)].
      + rewrite Hidle in Hp. by apply elem_of_nil in Hp.
      + exists n. by rewrite Hcfg.
    - exists n. by rewrite Hc2. }
  assert (Hrender : forall n, Update n ∉ FrameClock.renderQueue (clock w2)).
  { intros n Hp. apply Hr2 in Hp as [Hp|(h & n' & _ & [=])].
    apply Hr1 in Hp as [Hp|(h & n' & _ & [=])].
    rewrite Hidle in Hp. by apply elem_of_nil in Hp. }
  destruct (tick_log w2) as (w3 & E3 & _ & _ & Hk3 & Hl3).
  { intros n [Hin|Hin].
    - destruct (Hpending _ Hin) as (n' & [= <-] & Hs). exact Hs.
    - by destruct (Hrender n). }
  exists w1, w2, w3,
    (flat_map (observed w2) (FrameClock.updateQueue (clock w2))
     ++ flat_map (observed w2) (FrameClock.renderQueue (clock w2))).
  split; [exact E1|]. split; [exact E2|]. split; [exact E3|]. split.
  { by rewrite Hl3, Hlog2, Hlog1. }
  split; [|split; [by rewrite Hl2, Hli|exact Hk3]].
  rewrite filter_app, (no_update_shown this w2 _ (Hrender this)), app_nil_r.
  apply one_update_shown.
  - apply Hnd2, Hnd1. rewrite Hidle. apply NoDup_nil_2.
  - apply Hq2. right. exists this, key. split; [exact Hli|]. split; [done|].
    rewrite Hc1, Hset. eauto.
  - by rewrite Hcfg.
Qed.

Lemma onUpdate_once_per_tick_witness :
  exists w1 w2 w3 evs,
    value_set 0 (VNum 2) (world_after subscribed_with_onUpdate) = Ok (tt, w1)
    /\ value_set 0 (VNum 3) w1 = Ok (tt, w2)
    /\ tick w2 = Ok (tt, w3)
    /\ log w3 = log (world_after subscribed_with_onUpdate) ++ evs
    /\ List.filter (updates_of 0) evs = [Updated 0 5 (latest (nodes w2 0))]
    /\ latest (nodes w2 0) !! "x" = Some (VNum 3)
    /\ clock w3 = FrameClock.empty.
Proof.
  apply (onUpdate_once_per_tick (world_after subscribed_with_onUpdate) 0 "x" 0
           (VNum 2) (VNum 3) 5); vm_compute; reflexivity.
Defined.

Lemma scheduleRender_again this count : forall w,
  clock w = FrameClock.mk [] [TriggerRender this] ->
  exists w', run (repeat (ScheduleRenderOp this) count) w = Ok (tt, w')
    /\ nodes w' = nodes w /\ log w' = log w
    /\ clock w' = FrameClock.mk [] [TriggerRender this].
Proof.
  induction count as [|count IH]; intros w Hc; simpl.
  - by exists w.
  - unfold run. simpl. unfold bind at 1. unfold scheduleRender, sync_render, modify.
    fold (run (repeat (ScheduleRenderOp this) count)).
    set (w1 := with_clock _ w).
    destruct (IH w1) as (w' & E & Hn & Hl & Hk).
    { unfold w1, with_clock. cbn [clock]. rewrite Hc.
      unfold FrameClock.schedule, FrameClock.enqueue. simpl.
      rewrite bool_decide_eq_true_2; [done|]. apply elem_of_cons. by left. }
    by exists w'.
Qed.

(** X12: [scheduleRender] hands the clock the same function every time, so
    calling it any number of times before the tick gives one render: on an
    idle clock, one or more calls followed by a tick show exactly one call
    of the backend's render, with the node's [latest]. *)
Theorem repeated_scheduleRender_renders_once
    (w : World) (this : NodeId) (count : nat)
    (Hidle : clock w = FrameClock.empty) :
  exists w1 w2,
    run (repeat (ScheduleRenderOp this) (S count)) w = Ok (tt, w1)
    /\ tick w1 = Ok (tt, w2)
    /\ log w2 = log w ++ [Rendered this (latest (nodes w this))]
    /\ clock w2 = FrameClock.empty.
Proof.
  simpl. unfold run. simpl. unfold bind at 1. unfold scheduleRender, sync_render, modify.
  fold (run (repeat (ScheduleRenderOp this) count)).
  set (w0 := with_clock _ w).
  destruct (scheduleRender_again this count w0) as (w1 & E1 & Hn & Hl & Hk).
  { unfold w0, with_clock. cbn [clock]. by rewrite Hidle. }
  destruct (tick_log w1) as (w2 & E2 & _ & _ & Hk2 & Hl2).
  { rewrite Hk. simpl. intros n [Hin|Hin].
    - by apply elem_of_nil in Hin.
    - apply elem_of_cons in Hin as [?|Hin]; [done|by apply elem_of_nil in Hin]. }
  exists w1, w2. split; [exact E1|]. split; [exact E2|]. split; [|exact Hk2].
  rewrite Hl2, Hk, Hl. simpl. by rewrite Hn.
Qed.

Lemma repeated_scheduleRender_renders_once_witness :
  exists w1 w2,
    run (repeat (ScheduleRenderOp 0) 5) (world_after mounted_and_subscribed) = Ok (tt, w1)
    /\ tick w1 = Ok (tt, w2)
    /\ log w2 = log (world_after mounted_and_subscribed)
                ++ [Rendered 0 (latest (nodes (world_after mounted_and_subscribed) 0))]
    /\ clock w2 = FrameClock.empty.
Proof.
  apply (repeated_scheduleRender_renders_once (world_after mounted_and_subscribed) 0 4).
  vm_compute. reflexivity.
Defined.

Lemma notify_loop_quiet x (l : list (SubId * ChangeCallback)) : forall w w',
  (forall h n k, (h, OnChange n k) ∈ l -> onUpdate (config (nodes w n)) = None) ->
  forM l (fun e => call_onChange e.2 x) w = Ok (tt, w') ->
  clock w' = clock w.
Proof.
  induction l as [|[h cb] l IH]; intros w w' Hnone; simpl.
  - by intros [= ->].
  - unfold bind at 1. rewrite call_onChange_eq. intros E. destruct cb as [n k].
    assert (Hn : onUpdate (config (nodes w n)) = None)
      by (apply (Hnone h n k), elem_of_cons; by left).
    assert (Hrest : forall h' n' k', (h', OnChange n' k') ∈ l ->
              onUpdate (config (nodes (call_onChange_world (OnChange n k) x w) n')) = None).
    { intros h' n' k' Hin. rewrite config_call_onChange_world.
      apply (Hnone h' n' k'), elem_of_cons. by right. }
    rewrite (IH _ _ Hrest E).
    unfold call_onChange_world. cbv zeta. rewrite !nodes_with_node_eq.
    cbn [config set_latest]. by rewrite Hn.
Qed.

(** X13: without [onUpdate] a change schedules no update: when no node
    that listens to the value has an [onUpdate], a change of the value
    leaves the Update phase of the clock exactly as it was; it puts on the
    Render phase the render of every node that holds a render-request
    subscription on the value, and nothing else; and it still writes the
    new reading into [latest] for every subscribed key. *)
Theorem change_without_onUpdate_schedules_no_update
    (w : World) (v : ValId) (x : Value)
    (Hnone : forall n k, listens w n k v = true -> onUpdate (config (nodes w n)) = None) :
  exists w',
    value_set v x w = Ok (tt, w')
    /\ FrameClock.updateQueue (clock w') = FrameClock.updateQueue (clock w)
    /\ (forall p,
          p ∈ FrameClock.renderQueue (clock w') <->
          p ∈ FrameClock.renderQueue (clock w)
          \/ exists h n, (h, ScheduleRender n) ∈ requesters w v /\ p = TriggerRender n)
    /\ forall n k, listens w n k v = true -> latest (nodes w' n) !! k = Some x.
Proof.
  destruct (value_set_spec v x w) as (w' & E & _ & _ & Hl & _ & _ & Hr).
  exists w'. split; [exact E|]. split; [|split; [exact Hr|]].
  - revert E. rewrite value_set_unfold.
    destruct (forM _ _ _) as [[[] w1]|e] eqn:E1; [|done]. intros [= <-].
    destruct (request_world_outside (requesters w1 v) w1) as (_ & _ & _ & _ & ->).
    apply notify_loop_quiet in E1; [by rewrite E1|].
    intros h n k Hin. apply (Hnone n k), listens_spec. by exists h.
  - intros n k Hli. by rewrite Hl, Hli.
Qed.

Lemma change_without_onUpdate_schedules_no_update_witness :
  exists w',
    value_set 0 (VNum 4) (world_after mounted_and_subscribed) = Ok (tt, w')
    /\ FrameClock.updateQueue (clock w')
       = FrameClock.updateQueue (clock (world_after mounted_and_subscribed))
    /\ TriggerRender 0 ∈ FrameClock.renderQueue (clock w')
    /\ latest (nodes w' 0) !! "x" = Some (VNum 4).
Proof.
  destruct (change_without_onUpdate_schedules_no_update
              (world_after mounted_and_subscribed) 0 (VNum 4)) as (w' & E & Hc & Hr & Hl).
  - intros n k Hli. destruct n as [|n]; [vm_compute; reflexivity|].
    reflexivity.
  - exists w'. split; [exact E|]. split; [exact Hc|]. split.
    + apply Hr. right. exists 1, 0. split; [|reflexivity].
      vm_compute. apply elem_of_cons. by left.
    + apply Hl. vm_compute. reflexivity.
Defined.

(** X14: [unmount] cancels the node's own pending update and nothing else
    of what the class schedules: afterwards the node's update is not
    pending, every other pending update is still pending, and the Render
    phase holds the same render callbacks as before, the node's own
    included. *)
Theorem unmount_cancels_own_update_only (w : World) (this : NodeId) :
  exists w',
    unmount this w = Ok (tt, w')
    /\ (Update this ∉ FrameClock.updateQueue (clock w'))
    /\ (forall p, p <> Update this ->
          (p ∈ FrameClock.updateQueue (clock w') <-> p ∈ FrameClock.updateQueue (clock w)))
    /\ (forall n, TriggerRender n ∈ FrameClock.renderQueue (clock w')
                  <-> TriggerRender n ∈ FrameClock.renderQueue (clock w)).
Proof.
  destruct (unmount_node this w) as (w' & E & _ & _ & Hc & _).
  exists w'. split; [exact E|]. rewrite Hc. simpl. split; [|split].
  - rewrite elem_of_dequeue. tauto.
  - intros p Hp. rewrite elem_of_dequeue. tauto.
  - intros n. rewrite elem_of_dequeue. split; [tauto|]. split; [done|discriminate].
Qed.

Lemma quiet_field {T} (F : VisualElement -> T) (n : NodeId) (c : T) :
  (forall f nd, F (set_latest f nd) = F nd) ->
  (forall x nd, F (set_config x nd) = F nd) ->
  Quiet (fun w => F (nodes w n) = c).
Proof.
  intros H1 H2. split; intros; try done;
    rewrite nodes_with_node; case_decide; subst; congruence.
Qed.

(** X15: a change of a MotionValue reaches exactly its subscribers: the
    value takes the new reading, [latest[k]] of a node becomes the new
    reading where the value is subscribed for [k] on that node and is
    untouched everywhere else, and no binding, subscription record, host
    instance, configuration or subscription list changes. *)
Theorem change_reaches_exactly_the_subscribers (w : World) (v : ValId) (x : Value) :
  exists w',
    value_set v x w = Ok (tt, w')
    /\ MotionValueOps.get v w' = Ok (x, w')
    /\ (forall n k,
          latest (nodes w' n) !! k
          = if listens w n k v then Some x else latest (nodes w n) !! k)
    /\ (forall n,
          values (nodes w' n) = values (nodes w n)
          /\ valueSubscriptions (nodes w' n) = valueSubscriptions (nodes w n)
          /\ element (nodes w' n) = element (nodes w n)
          /\ config (nodes w' n) = config (nodes w n))
    /\ (forall u, listeners w' u = listeners w u).
Proof.
  destruct (value_set_spec v x w) as (w' & E & Hcur & Hli & Hl & Hc & _).
  exists w'. split; [exact E|].
  split; [unfold MotionValueOps.get, gets; by rewrite Hcur|].
  split; [exact Hl|]. split; [|exact Hli].
  intros n. repeat split.
  - by apply (frame_value_set _ (Quiet0 := quiet_field values n _
                ltac:(done) ltac:(done)) v x w tt w' eq_refl E).
  - by apply (frame_value_set _ (Quiet0 := quiet_field valueSubscriptions n _
                ltac:(done) ltac:(done)) v x w tt w' eq_refl E).
  - by apply (frame_value_set _ (Quiet0 := quiet_field element n _
                ltac:(done) ltac:(done)) v x w tt w' eq_refl E).
  - apply Hc.
Qed.

(** X16: a static value lasts until the next change of a subscribed value:
    after [setStaticValues(key, s)], [latest[key]] is [s]; a later change
    of a value replaces it when that value is subscribed for [key] on the
    node and leaves it alone otherwise. *)
Theorem static_value_lasts_until_next_change
    (w : World) (this : NodeId) (key : string) (s : Value) (v : ValId) (x : Value) :
  exists w1 w2,
    setStaticValues this (OneKey key) s w = Ok (tt, w1)
    /\ latest (nodes w1 this) !! key = Some s
    /\ value_set v x w1 = Ok (tt, w2)
    /\ latest (nodes w2 this) !! key
       = if listens w this key v then Some x else Some s.
Proof.
  set (w1 := with_node this (set_latest <[key := s]>) w).
  assert (Hs : latest (nodes w1 this) !! key = Some s).
  { unfold w1. rewrite nodes_with_node_eq. simpl. apply lookup_insert_eq. }
  destruct (value_set_spec v x w1) as (w2 & E2 & _ & _ & Hl & _).
  exists w1, w2. split; [reflexivity|]. split; [exact Hs|]. split; [exact E2|].
  rewrite Hl, Hs. reflexivity.
Qed.

(** X17: [getValue] with a default creates the value once: on an unbound
    key the first call returns a new MotionValue that reads the default,
    a second call returns that same value whatever default it is given and
    changes nothing, and, when the node holds an instance, the new value is
    subscribed, so that its changes reach [latest]. *)
Theorem getValue_default_is_created_once
    (w : World) (this : NodeId) (key : string) (d d' : Value)
    (Hunbound : JsMap.get key (values (nodes w this)) = None)
    (Hdefault : d <> VUndefined) :
  exists v w1,
    getValue this key d w = Ok (Some v, w1)
    /\ getValue this key d' w1 = Ok (Some v, w1)
    /\ MotionValueOps.get v w1 = Ok (d, w1)
    /\ (is_Some (element (nodes w this)) ->
        subscribed w1 this key v = true
        /\ forall x, exists w2,
             value_set v x w1 = Ok (tt, w2)
             /\ latest (nodes w2 this) !! key = Some x).
Proof.
  unfold getValue at 1. unfold bind at 1. unfold gets at 1. rewrite Hunbound.
  rewrite bool_decide_eq_true_2 by done.
  unfold bind at 1. unfold MotionValueOps.new at 1.
  set (wn := mkWorld _ _ _ _ _ _ _).
  unfold bind at 1. rewrite addValue_eq. unfold ret.
  destruct (addValue_world_node this key (nextVal w) wn) as (Hv & _ & He & Hc).
  exists (nextVal w), (addValue_world this key (nextVal w) wn).
  split; [reflexivity|].
  split; [unfold getValue, bind, gets; by rewrite Hv|].
  split.
  { unfold MotionValueOps.get, gets. rewrite Hc. unfold wn. cbn [cells].
    by rewrite fn_lookup_insert. }
  intros Hel.
  assert (Hsub : subscribed (addValue_world this key (nextVal w) wn) this key (nextVal w)
                 = true) by (by apply addValue_world_subscribed).
  split; [exact Hsub|]. intros x.
  destruct (value_set_spec (nextVal w) x (addValue_world this key (nextVal w) wn))
    as (w2 & E2 & _ & _ & Hl & _).
  exists w2. split; [exact E2|]. by rewrite Hl, (subscribed_listens _ _ _ _ Hsub).
Qed.

Lemma getValue_default_is_created_once_witness :
  exists v w1,
    getValue 0 "opacity" (VNum 1) (world_after mounted_and_subscribed) = Ok (Some v, w1)
    /\ getValue 0 "opacity" (VNum 0) w1 = Ok (Some v, w1)
    /\ MotionValueOps.get v w1 = Ok (VNum 1, w1)
    /\ subscribed w1 0 "opacity" v = true.
Proof.
  destruct (getValue_default_is_created_once
              (world_after mounted_and_subscribed) 0 "opacity" (VNum 1) (VNum 0))
    as (v & w1 & E1 & E2 & E3 & H).
  - vm_compute. reflexivity.
  - discriminate.
  - exists v, w1. split; [exact E1|]. split; [exact E2|]. split; [exact E3|].
    apply H. vm_compute. eauto.
Defined.

Lemma addValue_leaves_other_keys_witness :
  exists w',
    addValue 0 "x" 0 (world_after subscribed_with_static) = Ok (tt, w')
    /\ latest (nodes w' 0) !! "y" = latest (nodes (world_after subscribed_with_static) 0) !! "y".
Proof.
  destruct (addValue_leaves_other_keys (world_after subscribed_with_static) 0 "x" 0)
    as (w' & E & H & _).
  exists w'. split; [exact E|]. by destruct (H "y" ltac:(discriminate)) as (_ & Hl & _).
Defined.

Lemma unmount_cancels_own_update_only_witness :
  exists w',
    unmount 0 (world_after two_updates_pending) = Ok (tt, w')
    /\ (Update 1 ∈ FrameClock.updateQueue (clock w')
        <-> Update 1 ∈ FrameClock.updateQueue (clock (world_after two_updates_pending))).
Proof.
  destruct (unmount_cancels_own_update_only (world_after two_updates_pending) 0)
    as (w' & E & _ & H & _).
  exists w'. split; [exact E|]. apply H. discriminate.
Defined.

(** X18: [updateConfig] replaces the configuration as a whole: afterwards
    the node's [onUpdate] is the one of the configuration given (none when
    the argument is left out), whatever it was before, and nothing else of
    the node changes; a later change of a subscribed value puts the node's
    update on the clock exactly when the new configuration has an
    [onUpdate]. *)
Theorem updateConfig_replaces_config
    (w : World) (this : NodeId) (c : option VisualElementConfig)
    (key : string) (v : ValId) (x : Value) :
  exists w1 w2,
    updateConfig this c w = Ok (tt, w1)
    /\ onUpdate (config (nodes w1 this)) = onUpdate (default {| onUpdate := None |} c)
    /\ nodes w1 this = set_config (config (nodes w1 this)) (nodes w this)
    /\ (forall n, n <> this -> nodes w1 n = nodes w n)
    /\ clock w1 = clock w
    /\ value_set v x w1 = Ok (tt, w2)
    /\ (listens w this key v = true ->
        Update this ∉ FrameClock.updateQueue (clock w) ->
        (Update this ∈ FrameClock.updateQueue (clock w2)
         <-> is_Some (onUpdate (default {| onUpdate := None |} c)))).
Proof.
  set (w1 := with_node this
               (set_config {| onUpdate := onUpdate (default {| onUpdate := None |} c) |}) w).
  assert (Hn : nodes w1 this
               = set_config {| onUpdate := onUpdate (default {| onUpdate := None |} c) |}
                   (nodes w this)) by apply nodes_with_node_eq.
  destruct (value_set_spec v x w1) as (w2 & E2 & _ & _ & _ & _ & Hq & _).
  exists w1, w2. split; [reflexivity|]. rewrite Hn. simpl.
  split; [done|]. split; [done|].
  split; [intros n Hne; by apply nodes_with_node_ne|]. split; [done|].
  split; [exact E2|]. intros Hli Hnot. rewrite Hq. split.
  - intros [Hin|(n & k & _ & [= <-] & Hs)]; [done|]. by rewrite Hn in Hs.
  - intros Hs. right. exists this, key. split; [exact Hli|]. split; [done|].
    by rewrite Hn.
Qed.

Lemma updateConfig_replaces_config_witness :
  exists w1 w2,
    updateConfig 0 None (world_after subscribed_with_onUpdate) = Ok (tt, w1)
    /\ value_set 0 (VNum 2) w1 = Ok (tt, w2)
    /\ (Update 0 ∈ FrameClock.updateQueue (clock w2)
        <-> is_Some (onUpdate (default {| onUpdate := None |} None))).
Proof.
  destruct (updateConfig_replaces_config
              (world_after subscribed_with_onUpdate) 0 None "x" 0 (VNum 2))
    as (w1 & w2 & E1 & _ & _ & _ & _ & E2 & H).
  exists w1, w2. split; [exact E1|]. split; [exact E2|]. apply H.
  - vm_compute. reflexivity.
  - vm_compute. intros Hin. by apply elem_of_nil in Hin.
Defined.

Lemma subscribed_requests w this key value :
  subscribed w this key value = true ->
  exists h, (h, ScheduleRender this) ∈ requesters w value.
Proof.
  unfold subscribed.
  destruct (JsMap.get key (valueSubscriptions (nodes w this))) as [[[v h|] [|v' h']]|];
    try done.
  rewrite !andb_true_iff, !bool_decide_eq_true. intros [[[-> ->] H1] H2]. by exists h'.
Qed.

Lemma elem_of_observed w q ev :
  ev ∈ flat_map (observed w) q <-> exists p, p ∈ q /\ ev ∈ observed w p.
Proof.
  rewrite list_elem_of_In, in_flat_map. split.
  - intros (p & Hp & Hev). exists p. by rewrite !list_elem_of_In.
  - intros (p & Hp & Hev). exists p. by rewrite <- !list_elem_of_In.
Qed.

(** X20: the update comes before the render and both see the settled
    snapshot: when a value subscribed on a node with [onUpdate] changes on
    an idle clock, the tick first calls update callbacks and then renders;
    the node's [onUpdate] is among the former and its render among the
    latter, both with the [latest] that holds the new reading; nothing
    stays pending. *)
Theorem update_precedes_render
    (w : World) (this : NodeId) (key : string) (v : ValId) (x : Value) (f : UserFn)
    (Hidle : clock w = FrameClock.empty)
    (Hsubscribed : subscribed w this key v = true)
    (Hset : onUpdate (config (nodes w this)) = Some f) :
  exists w1 w2 updates renders,
    value_set v x w = Ok (tt, w1)
    /\ tick w1 = Ok (tt, w2)
    /\ log w2 = log w ++ updates ++ renders
    /\ (forall ev, ev ∈ updates -> exists n g s, ev = Updated n g s)
    /\ (forall ev, ev ∈ renders -> exists n s, ev = Rendered n s)
    /\ Updated this f (latest (nodes w1 this)) ∈ updates
    /\ Rendered this (latest (nodes w1 this)) ∈ renders
    /\ latest (nodes w1 this) !! key = Some x
    /\ clock w2 = FrameClock.empty.
Proof.
  pose proof (subscribed_listens _ _ _ _ Hsubscribed) as Hli.
  destruct (subscribed_requests _ _ _ _ Hsubscribed) as [h Hreq].
  destruct (value_set_spec v x w) as (w1 & E1 & _ & _ & Hl & Hc & Hq & Hr).
  destruct (value_set_queue _ _ _ _ E1) as [Hlog _].
  assert (Hups : forall p, p ∈ FrameClock.updateQueue (clock w1) ->
            exists n, p = Update n /\ is_Some (onUpdate (config (nodes w1 n)))).
  { intros p Hp. apply Hq in Hp as [Hp|(n & k & _ & -> & Hs)].
    - rewrite Hidle in Hp. by apply elem_of_nil in Hp.
    - exists n. by rewrite Hc. }
  assert (Hrs : forall p, p ∈ FrameClock.renderQueue (clock w1) ->
            exists n, p = TriggerRender n).
  { intros p Hp. apply Hr in Hp as [Hp|(h' & n & _ & ->)]; [|by exists n].
    rewrite Hidle in Hp. by apply elem_of_nil in Hp. }
  destruct (tick_log w1) as (w2 & E2 & _ & _ & Hk & Hlog2).
  { intros n [Hin|Hin].
    - destruct (Hups _ Hin) as (n' & [= <-] & Hs). exact Hs.
    - by destruct (Hrs _ Hin) as (n' & [=]). }
  exists w1, w2, (flat_map (observed w1) (FrameClock.updateQueue (clock w1))),
    (flat_map (observed w1) (FrameClock.renderQueue (clock w1))).
  split; [exact E1|]. split; [exact E2|]. split; [by rewrite Hlog2, Hlog|].
  split; [|split; [|split; [|split; [|split; [by rewrite Hl, Hli|exact Hk]]]]].
  - intros ev Hev. apply elem_of_observed in Hev as (p & Hp & Hev).
    destruct (Hups _ Hp) as (n & -> & [g Hg]). simpl in Hev. rewrite Hg in Hev.
    apply list_elem_of_singleton in Hev. eauto.
  - intros ev Hev. apply elem_of_observed in Hev as (p & Hp & Hev).
    destruct (Hrs _ Hp) as (n & ->). simpl in Hev.
    apply list_elem_of_singleton in Hev. eauto.
  - apply elem_of_observed. exists (Update this). split.
    + apply Hq. right. exists this, key. rewrite Hset. eauto.
    + simpl. rewrite Hc, Hset. by apply list_elem_of_singleton.
  - apply elem_of_observed. exists (TriggerRender this). split.
    + apply Hr. right. by exists h, this.
    + simpl. by apply list_elem_of_singleton.
Qed.

Lemma update_precedes_render_witness :
  exists w1 w2,
    value_set 0 (VNum 2) (world_after subscribed_with_onUpdate) = Ok (tt, w1)
    /\ tick w1 = Ok (tt, w2)
    /\ log w2 = log (world_after subscribed_with_onUpdate)
                ++ [Updated 0 5 {[ "x" := VNum 2 ]}; Rendered 0 {[ "x" := VNum 2 ]}].
Proof.
  destruct (update_precedes_render (world_after subscribed_with_onUpdate) 0 "x" 0
              (VNum 2) 5) as (w1 & w2 & us & rs & E1 & E2 & _);
    [vm_compute; reflexivity..|].
  exists w1, w2. split; [exact E1|]. split; [exact E2|].
  revert E1 E2. vm_compute. intros [= <-] [= <-]. reflexivity.
Defined.
